(** * BaseComponent: a data-binding custom element

    Shallow embedding of [src/components/base-component.js] and proofs of
    its binding and subscriber-propagation contract.

    The class has three operations: the constructor, the
    [attributeChangedCallback] notification and [observeAttribute].  They
    mutate the element, the nodes of its shadow tree and, through the
    subscriber lists, other elements; the embedding threads a [World]
    (a store of elements plus a chronological log of the observable steps)
    through a small state-and-exception monad.

    Modelling boundary.  The JavaScript of the file is followed statement by
    statement (strict equality, truthiness, property lookup on a plain
    object, the regular expression, exceptions, the call stack).  The host
    objects it talks to are modelled as far as the file uses them:
    - an element of the shadow tree has a [name] attribute, a text content
      and a [value]; it is either a form control, whose [name] property
      reflects the attribute and whose [value] property holds the assigned
      value as a string (a text field; controls that sanitise the string or
      choose among options are outside the model), or another element,
      which has no [name] property and keeps whatever is assigned to
      [value];
    - assigning [textContent] stores a string ([null] and [undefined] give
      the empty string); the render scope is the sequence of its elements in
      document order, side by side: elements nested in one another, where
      the assignment would also remove the children of the element, are
      outside the model;
    - [querySelectorAll] receives the selector text that line 68 builds by
      pasting the attribute name between quotes, and reads it as the host
      does as long as the text is a list of tests [[name="..."]] with
      simple escapes; text that is certainly no selector raises
      [SyntaxError]; for any other text the model stops with [NotModelled];
    - [dataset] follows the name conversion of the HTML standard, which the
      header comment of the file refers to in its caveat;
    - the host's own delivery of [attributeChangedCallback] for observed
      attributes is a switch of the world, as the FIXME of the constructor
      says that hosts differ in it;
    - [depth] counts the nested activations of [attributeChangedCallback]
      that the stack still has room for;
    - strings are sequences of 8-bit characters. *)

From Stdlib Require Import Ascii String.
From stdpp Require Import gmap strings list.

Local Open Scope string_scope.
Local Open Scope list_scope.

(** ** JavaScript values *)

(** The values that flow through the file: attribute values are strings, an
    absent old value is [undefined] (explicit call) or [null] (host). *)
Inductive jsval : Type :=
  | JUndefined
  | JNull
  | JStr (s : string).

#[global] Instance jsval_eq_dec : EqDecision jsval.
Proof. solve_decision. Defined.

(** [a === b] *)
Definition strict_eq (a b : jsval) : bool := bool_decide (a = b).

(** Conversion to a DOMString, applied by [dataset] to the assigned value. *)
Definition to_string (v : jsval) : string :=
  match v with
  | JUndefined => "undefined"
  | JNull => "null"
  | JStr s => s
  end.

(** ** Plain objects used as maps *)

(** The properties every object literal inherits from [Object.prototype]. *)
Definition Object_prototype : list string :=
  [ "constructor"; "__defineGetter__"; "__defineSetter__"; "hasOwnProperty";
    "__lookupGetter__"; "__lookupSetter__"; "isPrototypeOf";
    "propertyIsEnumerable"; "toString"; "valueOf"; "__proto__";
    "toLocaleString" ].

(** The result of [obj[key]] on an object created by [{}] whose own
    properties are the lists stored by the file. *)
Inductive Property (A : Type) : Type :=
  | Undefined
  | Inherited
  | Own (a : A).
Arguments Undefined {A}.
Arguments Inherited {A}.
Arguments Own {A} a.

Definition get {A : Type} (obj : gmap string A) (key : string) : Property A :=
  match obj !! key with
  | Some a => Own a
  | None => if bool_decide (key ∈ Object_prototype) then Inherited else Undefined
  end.

(** ** Elements, nodes and the world *)

(** Elements are held in a store and referred to by their position in it. *)
Abbreviation Ref := nat (only parsing).

(** An element of the shadow tree: its [name] attribute, whether it is a
    form control (an [input], as in the header comment of the file) or
    another element (a heading), what its [textContent] reads, and its
    [value] property. *)
Record Node : Type := mkNode {
  name : option string;
  control : bool;
  textContent : jsval;
  value : jsval;
}.

#[global] Instance Node_eq_dec : EqDecision Node.
Proof. solve_decision. Defined.

(** The class-level fields a subclass supplies. *)
Record Class : Type := mkClass {
  template : option (list Node);
  observedAttributes : list string;
}.

(** The base class: no template, nothing observed (lines 49-51). *)
Definition BaseComponent : Class :=
  {| template := None; observedAttributes := [] |}.

Record Component : Type := mkComponent {
  class : Class;
  attributes : gmap string string;
  shadowRoot : list Node;
  subscribers : option (gmap string (list Ref));
}.

(** The observable steps, in the order they happen. *)
Inductive Event : Type :=
  | DomUpdate (host : Ref) (index : nat) (v : jsval)
  | Invoke (target : Ref) (attr : string) (oldValue newValue : jsval)
           (source : option Ref).

Record World : Type := mkWorld {
  heap : list Component;
  delivers : bool;
  log : list Event;
}.

(** ** State and exceptions *)

(** [NotModelled] is no exception of the host: it marks the point where a
    selector leaves the part of the selector language that the model
    covers, and nothing is said about what the host does from there. *)
Inductive Error : Type :=
  | TypeError
  | RangeError
  | SyntaxError
  | InvalidCharacterError
  | NotModelled.

Inductive Res (A : Type) : Type :=
  | Ok (a : A) (w : World)
  | Throw (e : Error) (w : World).
Arguments Ok {A} a w.
Arguments Throw {A} e w.

Definition M (A : Type) : Type := World → Res A.

Definition ret {A : Type} (a : A) : M A := fun w => Ok a w.

Definition throw {A : Type} (e : Error) : M A := fun w => Throw e w.

Definition bind {A B : Type} (m : M A) (k : A → M B) : M B :=
  fun w =>
    match m w with
    | Ok a w' => k a w'
    | Throw e w' => Throw e w'
    end.

Notation "x <-- m ;;; k" := (bind m (fun x => k))
  (at level 100, m at next level, right associativity, only parsing).
Notation "m ;;; k" := (bind m (fun _ => k))
  (at level 100, right associativity, only parsing).

(** The world a computation leaves behind, however it ends. *)
Definition final {A : Type} (r : Res A) : World :=
  match r with
  | Ok _ w => w
  | Throw _ w => w
  end.

Definition returns {A : Type} (r : Res A) : Prop :=
  match r with
  | Ok _ _ => True
  | Throw _ _ => False
  end.

Definition emit (e : Event) : M unit :=
  fun w => Ok tt {| heap := heap w; delivers := delivers w; log := log w ++ [e] |}.

Definition emits (es : list Event) : M unit :=
  fun w => Ok tt {| heap := heap w; delivers := delivers w; log := log w ++ es |}.

Definition store (r : Ref) (c : Component) : M unit :=
  fun w => Ok tt {| heap := <[r := c]> (heap w); delivers := delivers w; log := log w |}.

(** [array.forEach(f)]: in order, stopping at the first exception. *)
Fixpoint forEach {A : Type} (l : list A) (f : A → M unit) : M unit :=
  match l with
  | [] => ret tt
  | x :: l' => f x ;;; forEach l' f
  end.

(** ** The attribute-change notification (lines 61-77) *)

(** *** The selector of line 68 *)

Definition quote : ascii := "034"%char.
Definition backslash : ascii := "092"%char.

Definition is_newline (ch : ascii) : bool :=
  bool_decide (ch ∈ ["010"%char; "012"%char; "013"%char]).

Definition is_hex (ch : ascii) : bool :=
  let n := nat_of_ascii ch in
  (((48 <=? n) && (n <=? 57)) || ((65 <=? n) && (n <=? 70)) || ((97 <=? n) && (n <=? 102)))%nat.

(** After the closing quote of a value, a digit or a letter other than the
    modifiers [i] and [s] cannot continue a selector. *)
Definition never_follows (ch : ascii) : bool :=
  let n := nat_of_ascii ch in
  (((48 <=? n) && (n <=? 57)) || ((65 <=? n) && (n <=? 90)) || ((97 <=? n) && (n <=? 122)))%nat
  && negb (bool_decide (n ∈ [73; 83; 105; 115])).

(** The selector text for an attribute name: the template string of
    line 68, the name pasted in as it is. *)
Definition opener : string := "[name=" +:+ String quote "".

Definition selector_text (attr : string) : string :=
  opener +:+ "bind-" +:+ attr +:+ String quote "]".

(** What the host makes of a selector text: the names it tests for, a
    syntax error, or a selector beyond this model. *)
Inductive Selection : Type :=
  | Names (names : list string)
  | Malformed
  | Beyond.

Inductive Mode : Type :=
  | Opening (todo : string)
  | InString (acc : string)
  | Escaped (acc : string)
  | Closed
  | After.

(** The reading of a list of tests [[name="..."]] separated by commas.  In
    a quoted value a backslash before a character that is neither a
    hexadecimal digit nor a line break stands for that character, a quote
    ends the value and a line break makes the text no selector.  Hexadecimal
    escapes, the NUL character, modifiers, white space, other tests and a
    text that ends early are left to [Beyond]. *)
Fixpoint scan (mode : Mode) (names : list string) (text : string) : Selection :=
  match text with
  | EmptyString =>
      match mode with
      | After => Names names
      | _ => Beyond
      end
  | String ch rest =>
      match mode with
      | Opening todo =>
          match todo with
          | EmptyString => Beyond
          | String d todo' =>
              if bool_decide (ch = d) then
                scan (match todo' with
                      | EmptyString => InString ""
                      | _ => Opening todo'
                      end) names rest
              else Beyond
          end
      | InString acc =>
          if bool_decide (ch = quote) then scan Closed (names ++ [acc]) rest
          else if bool_decide (ch = backslash) then scan (Escaped acc) names rest
          else if is_newline ch then Malformed
          else if bool_decide (ch = "000"%char) then Beyond
          else scan (InString (acc +:+ String ch "")) names rest
      | Escaped acc =>
          if is_hex ch || is_newline ch || bool_decide (ch = "000"%char) then Beyond
          else scan (InString (acc +:+ String ch "")) names rest
      | Closed =>
          if bool_decide (ch = "]"%char) then scan After names rest
          else if never_follows ch then Malformed
          else Beyond
      | After =>
          if bool_decide (ch = ","%char) then scan (Opening opener) names rest
          else Beyond
      end
  end.

Definition css (text : string) : Selection := scan (Opening opener) [] text.

(** An element passes a test [[name="s"]] when it has the attribute [name]
    with the value [s]. *)
Definition selects (names : list string) (e : Node) : bool :=
  match name e with
  | Some s => bool_decide (s ∈ names)
  | None => false
  end.

(** The positions, in document order, of the elements that pass one of the
    tests. *)
Fixpoint select_from (i : nat) (names : list string) (nodes : list Node) : list nat :=
  match nodes with
  | [] => []
  | e :: nodes' =>
      if selects names e
      then i :: select_from (S i) names nodes'
      else select_from (S i) names nodes'
  end.

Definition matching (names : list string) (nodes : list Node) : list nat :=
  select_from 0 names nodes.

(** [shadowRoot.querySelectorAll(selector)]: the positions of the selected
    elements in document order, or the exception that the selector text
    raises. *)
Definition querySelectorAll (selector : string) (nodes : list Node) : Error + list nat :=
  match css selector with
  | Names names => inr (matching names nodes)
  | Malformed => inl SyntaxError
  | Beyond => inl NotModelled
  end.

(** What [textContent] reads after an assignment: the string, and the empty
    string for [null] and [undefined]. *)
Definition text_of (v : jsval) : string :=
  match v with
  | JStr s => s
  | JUndefined | JNull => ""
  end.

(** What the [value] of a form control reads after an assignment: the value
    converted to a string, and the empty string for [null]. *)
Definition control_value (v : jsval) : string :=
  match v with
  | JNull => ""
  | JUndefined | JStr _ => to_string v
  end.

(** The body of the arrow function of lines 69-72. *)
Definition assign (v : jsval) (element : Node) : Node :=
  {| name := name element;
     control := control element;
     textContent := JStr (text_of v);
     value := if control element then JStr (control_value v) else v |}.

Definition assign_all (v : jsval) (targets : list nat) (nodes : list Node) : list Node :=
  foldl (fun ns i => alter (assign v) i ns) nodes targets.

Definition with_shadowRoot (c : Component) (nodes : list Node) : Component :=
  {| class := class c; attributes := attributes c; shadowRoot := nodes;
     subscribers := subscribers c |}.

(** Lines 66-73: [querySelectorAll] reads the selector text, or raises
    before anything is written; every selected node receives the new
    value. *)
Definition update_bound_nodes (this : Ref) (c : Component) (attr : string)
    (newValue : jsval) : M unit :=
  match querySelectorAll (selector_text attr) (shadowRoot c) with
  | inl e => throw e
  | inr targets =>
      store this (with_shadowRoot c (assign_all newValue targets (shadowRoot c))) ;;;
      emits (map (fun i => DomUpdate this i newValue) targets)
  end.

(** Lines 74-76: [this.subscribers && this.subscribers[name]], then
    [forEach]; [call] is the invocation of one subscriber.  An inherited
    property is truthy and has no [forEach]. *)
Definition notify_subscribers (c : Component) (attr : string)
    (call : Ref → M unit) : M unit :=
  match subscribers c with
  | None => ret tt
  | Some registry =>
      match get registry attr with
      | Undefined => ret tt
      | Inherited => throw TypeError
      | Own list => forEach list call
      end
  end.

(** [depth] is the room left on the call stack: a call that finds none
    raises [RangeError], as the engine does on unbounded recursion.  A
    reference that is no element of the store stands for a subscriber
    without the method: calling it raises [TypeError]. *)
Fixpoint attributeChangedCallback (depth : nat) (this : Ref) (attr : string)
    (oldValue newValue : jsval) (source : option Ref) : M unit :=
  match depth with
  | 0 => throw RangeError
  | S depth' =>
      if strict_eq newValue oldValue then ret tt
      else fun w =>
        match heap w !! this with
        | None => Throw TypeError w
        | Some c =>
            (update_bound_nodes this c attr newValue ;;;
             notify_subscribers c attr (fun subscriber =>
               emit (Invoke subscriber attr oldValue newValue (Some this)) ;;;
               attributeChangedCallback depth' subscriber attr
                 oldValue newValue (Some this))) w
        end
  end.

(** ** Subscription (lines 79-88) *)

Definition with_subscribers (c : Component) (registry : gmap string (list Ref)) : Component :=
  {| class := class c; attributes := attributes c; shadowRoot := shadowRoot c;
     subscribers := Some registry |}.

Definition observeAttribute (this : Ref) (attributeName : string) (subscriber : Ref) : M Ref :=
  fun w =>
    match heap w !! this with
    | None => Throw TypeError w
    | Some c =>
        (* if (this.subscribers === undefined) this.subscribers = {} *)
        let registry := default ∅ (subscribers c) in
        (store this (with_subscribers c registry) ;;;
         match get registry attributeName with
         | Inherited => throw TypeError
         | Undefined =>
             (* this.subscribers[attributeName] = []; then push *)
             store this (with_subscribers c (<[attributeName := [] ++ [subscriber]]> registry)) ;;;
             ret this
         | Own list =>
             store this (with_subscribers c (<[attributeName := list ++ [subscriber]]> registry)) ;;;
             ret this
         end) w
    end.

(** ** The host: [dataset] and the delivery of attribute changes *)

Definition is_lower (c : ascii) : bool :=
  let n := nat_of_ascii c in ((97 <=? n) && (n <=? 122))%nat.

Definition is_upper (c : ascii) : bool :=
  let n := nat_of_ascii c in ((65 <=? n) && (n <=? 90))%nat.

Definition to_lower (c : ascii) : ascii :=
  if is_upper c then ascii_of_nat (nat_of_ascii c + 32) else c.

(** A hyphen directly followed by a lowercase letter. *)
Fixpoint hyphen_lower (key : string) : bool :=
  match key with
  | EmptyString => false
  | String c rest =>
      match rest with
      | String d _ => (bool_decide (c = "-"%char) && is_lower d) || hyphen_lower rest
      | EmptyString => false
      end
  end.

(** Each uppercase letter becomes a hyphen and its lowercase letter. *)
Fixpoint hyphenate (key : string) : string :=
  match key with
  | EmptyString => EmptyString
  | String c rest =>
      if is_upper c then String "-" (String (to_lower c) (hyphenate rest))
      else String c (hyphenate rest)
  end.

Definition forbidden_in_name (c : ascii) : bool :=
  bool_decide (nat_of_ascii c ∈ [0; 9; 10; 12; 13; 32; 47; 61; 62]).

Fixpoint free_of_forbidden (s : string) : bool :=
  match s with
  | EmptyString => true
  | String c rest => negb (forbidden_in_name c) && free_of_forbidden rest
  end.

(** The attribute that [dataset[key] = ...] writes, or the exception. *)
Definition dataset_attribute (key : string) : Error + string :=
  if hyphen_lower key then inl SyntaxError
  else
    let attr := "data-" +:+ hyphenate key in
    if free_of_forbidden attr then inr attr else inl InvalidCharacterError.

Definition with_attributes (c : Component) (attrs : gmap string string) : Component :=
  {| class := class c; attributes := attrs; shadowRoot := shadowRoot c;
     subscribers := subscribers c |}.

(** The host's reaction to a changed attribute: for an observed attribute
    of a host that delivers, it calls [attributeChangedCallback] with the
    previous value ([null] when there was none) and no source; an exception
    of the callback is reported, not propagated. *)
Definition attribute_changed (depth : nat) (this : Ref) (attr : string)
    (previous : option string) (v : string) : M unit :=
  fun w =>
    match heap w !! this with
    | None => Ok tt w
    | Some c =>
        if delivers w && bool_decide (attr ∈ observedAttributes (class c)) then
          let oldValue := from_option JStr JNull previous in
          Ok tt (final ((emit (Invoke this attr oldValue (JStr v) None) ;;;
                         attributeChangedCallback depth this attr oldValue (JStr v) None) w))
        else Ok tt w
    end.

(** [this.dataset[key] = v] *)
Definition dataset_set (depth : nat) (this : Ref) (key : string) (v : jsval) : M unit :=
  fun w =>
    match heap w !! this with
    | None => Throw TypeError w
    | Some c =>
        match dataset_attribute key with
        | inl e => Throw e w
        | inr attr =>
            (store this (with_attributes c (<[attr := to_string v]> (attributes c))) ;;;
             attribute_changed depth this attr (attributes c !! attr) (to_string v)) w
        end
    end.

(** ** The constructor (lines 27-46) *)

(** The regular expression of line 40, anchored at both ends: the literal
    prefix [bind-data-], then a group of lowercase letters [a-z], possibly
    none.  [regex_match] gives the captured group, or no match. *)
Fixpoint strip_prefix (prefix s : string) : option string :=
  match prefix with
  | EmptyString => Some s
  | String a prefix' =>
      match s with
      | EmptyString => None
      | String b s' => if bool_decide (a = b) then strip_prefix prefix' s' else None
      end
  end.

Fixpoint all_lower (s : string) : bool :=
  match s with
  | EmptyString => true
  | String c rest => is_lower c && all_lower rest
  end.

Definition regex_match (s : string) : option string :=
  match strip_prefix "bind-data-" s with
  | Some group => if all_lower group then Some group else None
  | None => None
  end.

(** [element.name]: a form control reflects its attribute (the empty string
    when it has none); another element has no such property. *)
Definition name_property (element : Node) : option string :=
  if control element then Some (default "" (name element)) else None.

(** The listener of lines 36-45, run for a change event whose target is
    [target]. *)
Definition change_listener (depth : nat) (this : Ref) (target : Node) : M unit :=
  match name_property target with
  | None => ret tt
  | Some "" => ret tt
  | Some target_name =>
      match regex_match target_name with
      | None => ret tt
      | Some "" => ret tt
      | Some group => dataset_set depth this group (value target)
      end
  end.

(** One round of the loop of lines 31-35, for the property [key] of the
    configuration and its value [v]. *)
Definition initialise (depth : nat) (this : Ref) (entry : string * string) : M unit :=
  let '(key, v) := entry in
  dataset_set depth this key (JStr v) ;;;
  emit (Invoke this ("data-" +:+ key) JUndefined (JStr v) None) ;;;
  attributeChangedCallback depth this ("data-" +:+ key) JUndefined (JStr v) None.

(** [new C(config)]: the configuration is the sequence of its own
    properties in enumeration order; the new element takes the next free
    place of the store; a class without template fails at line 30. *)
Definition constructor (depth : nat) (C : Class) (config : list (string * string)) : M Ref :=
  fun w =>
    let this := length (heap w) in
    match template C with
    | None => Throw TypeError w
    | Some content =>
        let c := {| class := C; attributes := ∅; shadowRoot := content;
                    subscribers := None |} in
        (forEach config (initialise depth this) ;;; ret this)
          {| heap := heap w ++ [c]; delivers := delivers w; log := log w |}
    end.

(** ** Vocabulary of the specification *)

(** An attribute name that the selector of line 68 takes as it is: no
    quote, no backslash, no line break and no NUL character. *)
Definition plain (attr : string) : Prop :=
  Forall (fun ch => ch ∉ [quote; backslash; "010"%char; "012"%char; "013"%char; "000"%char])
         (list_ascii_of_string attr).

(** The names that the selector for [attr] tests for, or how
    [querySelectorAll] fails. *)
Definition selected_names (attr : string) : Error + list string :=
  match css (selector_text attr) with
  | Names names => inr names
  | Malformed => inl SyntaxError
  | Beyond => inl NotModelled
  end.

(** The names whose nodes a notification for [attr] writes: none when
    [querySelectorAll] fails. *)
Definition selection (attr : string) : list string :=
  match selected_names attr with
  | inr names => names
  | inl _ => []
  end.

(** What one notification does to one node of the render scope. *)
Definition sync (names : list string) (v : jsval) (e : Node) : Node :=
  if selects names e then assign v e else e.

(** The ways a node can differ before and after a fan-out for one attribute
    and one value. *)
Definition node_step (names : list string) (v : jsval) (e e' : Node) : Prop :=
  e' = e ∨ (selects names e = true ∧ e' = assign v e).

Definition component_step (names : list string) (v : jsval) (c c' : Component) : Prop :=
  class c' = class c ∧ attributes c' = attributes c ∧
  subscribers c' = subscribers c ∧
  Forall2 (node_step names v) (shadowRoot c) (shadowRoot c').

Definition world_step (names : list string) (v : jsval) (w w' : World) : Prop :=
  Forall2 (component_step names v) (heap w) (heap w') ∧
  delivers w' = delivers w ∧
  log w `prefix_of` log w'.

(** The subscriber list stored for an attribute, when there is one. *)
Definition registered (c : Component) (attr : string) : option (list Ref) :=
  registry ← subscribers c; registry !! attr.

(** The subscriber graph for [attr] descends along [rank] and stays inside
    the store: a static graph of fixed depth. *)
Definition well_ranked (attr : string) (rank : Ref → nat) (w : World) : Prop :=
  ∀ r c list s,
    heap w !! r = Some c → registered c attr = Some list → s ∈ list →
    rank s < rank r ∧ s < length (heap w).

(** The letters [a] to [z]. *)
Definition letters : list ascii :=
  list_ascii_of_string "abcdefghijklmnopqrstuvwxyz".

Definition lowercase (s : string) : Prop :=
  Forall (fun c => c ∈ letters) (list_ascii_of_string s).

(** A name of the form [bind-data-] followed by one or more lowercase
    letters. *)
Definition bind_data_name (s : string) : Prop :=
  ∃ word, word ≠ "" ∧ lowercase word ∧ s = "bind-data-" +:+ word.

(** The world when lines 66-73 are done: every node of the scope of [this]
    went through [sync], and each update is on the log. *)
Definition after_update (this : Ref) (c : Component) (attr : string) (v : jsval)
    (w : World) : World :=
  {| heap := <[this := with_shadowRoot c (sync (selection attr) v <$> shadowRoot c)]> (heap w);
     delivers := delivers w;
     log := log w ++ map (fun i => DomUpdate this i v)
                         (matching (selection attr) (shadowRoot c)) |}.



(** The invocation of one subscriber by the element [this] (line 75). *)
Definition call_subscriber (depth : nat) (this : Ref) (attr : string)
    (oldValue newValue : jsval) (subscriber : Ref) : M unit :=
  emit (Invoke subscriber attr oldValue newValue (Some this)) ;;;
  attributeChangedCallback depth subscriber attr oldValue newValue (Some this).

(** The subscribers the callback visits for [attr]. *)
Definition subscribers_of (c : Component) (attr : string) : list Ref :=
  default [] (registered c attr).



(** What the constructor loop does to the element for one entry of the
    configuration. *)
Definition seed (c : Component) (entry : string * string) : Component :=
  {| class := class c;
     attributes := <["data-" +:+ entry.1 := entry.2]> (attributes c);
     shadowRoot := sync ["bind-data-" +:+ entry.1] (JStr entry.2) <$> shadowRoot c;
     subscribers := subscribers c |}.

(** ** A sample component

    The component of the header comment of the file: a heading and an input
    bound to [data-spam], next to a paragraph with another name. *)

Definition heading : Node :=
  {| name := Some "bind-data-spam"; control := false; textContent := JStr "";
     value := JUndefined |}.

Definition input : Node :=
  {| name := Some "bind-data-spam"; control := true; textContent := JStr "";
     value := JStr "" |}.

Definition paragraph : Node :=
  {| name := Some "footer"; control := false; textContent := JStr "fine print";
     value := JUndefined |}.

Definition MyComponent : Class :=
  {| template := Some [heading; input; paragraph];
     observedAttributes := ["data-spam"; "data-eggs"; "data-ham"; "somethingElse"] |}.

(** An instance of [MyComponent] without attributes, with the subscribers
    [subs] for [data-spam] when [subs] is given. *)
Definition instance (subs : option (list Ref)) : Component :=
  {| class := MyComponent; attributes := ∅;
     shadowRoot := [heading; input; paragraph];
     subscribers := (fun l => {["data-spam" := l]}) <$> subs |}.

(** A publisher with the subscribers 1, 2 and 3, registered in that order. *)
Definition page : World :=
  {| heap := [instance (Some [1; 2; 3]); instance None; instance None; instance None];
     delivers := true; log := [] |}.




(** Attribute names with a backslash before [z], and with a quote before
    [b]. *)
Definition escaped : string := "a" +:+ String backslash "z".

Definition quoted : string := "a" +:+ String quote "b".

(** A render scope with nodes bound to those names. *)
Definition odd_names : World :=
  {| heap := [ {| class := BaseComponent; attributes := ∅;
                  shadowRoot :=
                    [ {| name := Some ("bind-" +:+ escaped); control := false;
                         textContent := JStr ""; value := JUndefined |};
                      {| name := Some "bind-az"; control := false;
                         textContent := JStr ""; value := JUndefined |};
                      {| name := Some ("bind-" +:+ quoted); control := false;
                         textContent := JStr ""; value := JUndefined |} ];
                  subscribers := None |} ];
     delivers := true; log := [] |}.



(** A store without elements. *)
Definition blank (host_delivers : bool) : World :=
  {| heap := []; delivers := host_delivers; log := [] |}.

(** An element that observes and binds attributes outside the pattern of
    the header comment. *)
Definition Scoreboard : Class :=
  {| template := Some [ {| name := Some "bind-data-high-score"; control := false;
                          textContent := JStr ""; value := JUndefined |};
                        {| name := Some "bind-somethingElse"; control := false;
                          textContent := JStr ""; value := JUndefined |} ];
     observedAttributes := ["data-high-score"; "somethingElse"] |}.

Definition scoreboard : World :=
  {| heap := [ {| class := Scoreboard; attributes := ∅;
                  shadowRoot := default [] (template Scoreboard);
                  subscribers := None |} ];
     delivers := true; log := [] |}.

(** ** Subscriber graphs and chained registration *)

(** [s] is registered on the element [r] for [attr]. *)
Definition edge (w : World) (attr : string) (r s : Ref) : Prop :=
  ∃ c, heap w !! r = Some c ∧ s ∈ subscribers_of c attr.

(** A chain of [n] registrations that starts at [r]. *)
Inductive chain (w : World) (attr : string) : Ref → nat → Prop :=
  | chain_end r : chain w attr r 0
  | chain_link r s n : edge w attr r s → chain w attr s n → chain w attr r (S n).

(** [t] is [r] itself or a subscriber of [r], directly or through others. *)
Inductive reaches (w : World) (attr : string) : Ref → Ref → Prop :=
  | reaches_here r : reaches w attr r r
  | reaches_link r s t : edge w attr r s → reaches w attr s t → reaches w attr r t.



(** The chained call [this.observeAttribute(attr, s1).observeAttribute(attr, s2)...],
    which line 87 allows by returning the element. *)
Fixpoint observe_all (this : Ref) (attr : string) (subs : list Ref) : M Ref :=
  match subs with
  | [] => ret this
  | s :: rest => this' <-- observeAttribute this attr s ;;; observe_all this' attr rest
  end.

(** The element [this] has no subscribers and is the only difference to
    the store [store0]. *)
Definition alone_in (this : Ref) (C : Class) (store0 : list Component) (w : World) : Prop :=
  ∃ c, class c = C ∧ subscribers c = None ∧ heap w = <[this := c]> store0.

(** Two elements that registered each other for [data-spam]. *)
Definition mutual : World :=
  {| heap := [instance (Some [1]); instance (Some [0])]; delivers := true; log := [] |}.

(** * Properties *)

(** ** Nodes *)

Lemma assign_idemp v e : assign v (assign v e) = assign v e.
Proof. reflexivity. Qed.

Lemma selects_assign names v e : selects names (assign v e) = selects names e.
Proof. reflexivity. Qed.

Lemma selects_single s e : selects [s] e = true ↔ name e = Some s.
Proof.
  unfold selects. destruct (name e) as [s'|]; [|split; discriminate].
  rewrite bool_decide_eq_true, list_elem_of_singleton. split; congruence.
Qed.

Lemma sync_idemp names v e : sync names v (sync names v e) = sync names v e.
Proof.
  unfold sync. destruct (selects names e) eqn:E.
  - now rewrite selects_assign, E.
  - now rewrite E.
Qed.

Lemma sync_name names v e : name (sync names v e) = name e.
Proof. unfold sync. now destruct (selects names e). Qed.

Lemma selects_sync names names' v e : selects names' (sync names v e) = selects names' e.
Proof. unfold selects. now rewrite sync_name. Qed.

Lemma sync_other names v e : selects names e = false → sync names v e = e.
Proof. intros H. unfold sync. now rewrite H. Qed.

Lemma sync_bound names v e : selects names e = true → sync names v e = assign v e.
Proof. intros H. unfold sync. now rewrite H. Qed.

Lemma select_from_elem (k : nat) names (nodes : list Node) (i : nat) :
  i ∈ select_from k names nodes ↔
  (k ≤ i)%nat ∧ ∃ e, nodes !! (i - k) = Some e ∧ selects names e = true.
Proof.
  revert k. induction nodes as [|e nodes IH]; intros k; simpl.
  - split; [intros H; inversion H | intros (_ & e & H & _); discriminate].
  - assert (Hrest : i ∈ select_from (S k) names nodes ↔
                    k < i ∧ ∃ e', (e :: nodes) !! (i - k) = Some e' ∧ selects names e' = true).
    { rewrite IH. split.
      - intros (Hle & e' & Hl & Hn). split; [lia|]. exists e'. split; [|done].
        replace (i - k) with (S (i - S k)) by lia. done.
      - intros (Hlt & e' & Hl & Hn). split; [lia|]. exists e'. split; [|done].
        replace (i - k) with (S (i - S k)) in Hl by lia. done. }
    destruct (selects names e) eqn:Hsel.
    + rewrite elem_of_cons, Hrest. split.
      * intros [-> | (Hlt & H)].
        -- split; [lia|]. exists e. now rewrite Nat.sub_diag.
        -- split; [lia | done].
      * intros (Hle & H). destruct (decide (i = k)) as [-> | Hne]; [now left | right].
        split; [lia | done].
    + rewrite Hrest. split.
      * intros (Hlt & H). split; [lia | done].
      * intros (Hle & e' & Hl & Hn). split; [|by exists e'].
        destruct (decide (i = k)) as [-> | Hne]; [|lia].
        rewrite Nat.sub_diag in Hl. simpl in Hl. congruence.
Qed.

Lemma matching_elem names (nodes : list Node) (i : nat) :
  i ∈ matching names nodes ↔ ∃ e, nodes !! i = Some e ∧ selects names e = true.
Proof.
  unfold matching. rewrite select_from_elem, Nat.sub_0_r.
  split; [now intros (_ & H) | intros H; split; [lia | done]].
Qed.

(** [querySelectorAll] on the selector of line 68, by the names that the
    selector tests for. *)
Lemma querySelectorAll_selected attr (nodes : list Node) :
  querySelectorAll (selector_text attr) nodes =
  match selected_names attr with
  | inl e => inl e
  | inr names => inr (matching names nodes)
  end.
Proof.
  unfold querySelectorAll, selected_names. now destruct (css (selector_text attr)).
Qed.

Lemma assign_all_lookup v (targets : list nat) (nodes : list Node) (i : nat) :
  assign_all v targets nodes !! i =
  (if decide (i ∈ targets) then assign v else id) <$> (nodes !! i).
Proof.
  unfold assign_all. revert nodes.
  induction targets as [|t targets IH]; intros nodes.
  - destruct (decide (i ∈ [])) as [H|_]; [inversion H|].
    simpl. now destruct (nodes !! i).
  - change (foldl (fun ns j => alter (assign v) j ns) (alter (assign v) t nodes) targets !! i =
            (if decide (i ∈ t :: targets) then assign v else id) <$> nodes !! i).
    rewrite IH. destruct (decide (i = t)) as [-> | Hne].
    + rewrite list_lookup_alter_eq.
      destruct (decide (t ∈ t :: targets)) as [_|H]; [|exfalso; apply H; left].
      destruct (nodes !! t); simpl; [|now destruct (decide _)].
      now destruct (decide _).
    + rewrite list_lookup_alter_ne by done.
      destruct (decide (i ∈ targets)) as [Hin | Hnin];
        destruct (decide (i ∈ t :: targets)) as [Hin' | Hnin']; try done.
      * exfalso. apply Hnin'. now right.
      * exfalso. apply elem_of_cons in Hin' as [? | ?]; done.
Qed.


(** The loop of lines 66-73 applies [sync] to every node of the scope. *)
Lemma assign_all_sync names v (nodes : list Node) :
  assign_all v (matching names nodes) nodes = sync names v <$> nodes.
Proof.
  apply list_eq. intros i. rewrite assign_all_lookup, list_lookup_fmap.
  destruct (nodes !! i) as [e|] eqn:He; simpl; [|done].
  f_equal. unfold sync. case_decide as Hin; destruct (selects names e) eqn:Hsel; try done.
  - apply matching_elem in Hin as (e' & He' & Hn). congruence.
  - exfalso. apply Hin, matching_elem. eauto.
Qed.




(** ** The selector for a plain name *)

Lemma append_empty s : s +:+ "" = s.
Proof.
  induction s as [|ch s IH]; [done|].
  change (String ch (s +:+ "") = String ch s). now rewrite IH.
Qed.

Lemma append_snoc acc ch rest : (acc +:+ String ch "") +:+ rest = acc +:+ String ch rest.
Proof.
  induction acc as [|a acc IH]; [done|].
  change (String a ((acc +:+ String ch "") +:+ rest) = String a (acc +:+ (String ch rest))).
  now rewrite IH.
Qed.

Lemma plain_cons ch s :
  plain (String ch s) ↔
  (ch ∉ [quote; backslash; "010"%char; "012"%char; "013"%char; "000"%char]) ∧ plain s.
Proof. unfold plain. simpl. now rewrite Forall_cons. Qed.

Lemma scan_plain_value acc names body :
  plain body →
  scan (InString acc) names (body +:+ String quote "]") = Names (names ++ [acc +:+ body]).
Proof.
  revert acc. induction body as [|ch body IH]; intros acc Hplain.
  - now rewrite append_empty.
  - apply plain_cons in Hplain as [Hch Hbody].
    change (String ch body +:+ String quote "]") with (String ch (body +:+ String quote "]")).
    rewrite !not_elem_of_cons in Hch.
    destruct Hch as (Hquote & Hback & Hlf & Hff & Hcr & Hnul & _).
    cbn [scan].
    rewrite (bool_decide_false (ch = quote)) by done.
    rewrite (bool_decide_false (ch = backslash)) by done.
    unfold is_newline. rewrite (bool_decide_false (ch ∈ _)).
    2:{ rewrite !elem_of_cons. intros [? | [? | [? | H]]]; [done | done | done | inversion H]. }
    rewrite (bool_decide_false (ch = "000"%char)) by done.
    rewrite IH by done. now rewrite append_snoc.
Qed.

(** For a plain attribute name the selector tests for the one name
    [bind-attr]. *)
Lemma selected_names_plain attr :
  plain attr → selected_names attr = inr ["bind-" +:+ attr].
Proof.
  intros Hplain. unfold selected_names, css.
  assert (Hscan : scan (Opening opener) [] (selector_text attr) =
                  scan (InString "") [] (("bind-" +:+ attr) +:+ String quote "]"))
    by reflexivity.
  rewrite Hscan, scan_plain_value; [done|].
  repeat (apply plain_cons; split; [apply (bool_decide_unpack _); vm_compute; exact I|]).
  exact Hplain.
Qed.

Lemma selection_plain attr : plain attr → selection attr = ["bind-" +:+ attr].
Proof. intros H. unfold selection. now rewrite selected_names_plain. Qed.

Lemma selection_selected attr names : selected_names attr = inr names → selection attr = names.
Proof. intros H. unfold selection. now rewrite H. Qed.

Lemma selection_failed attr e : selected_names attr = inl e → selection attr = [].
Proof. intros H. unfold selection. now rewrite H. Qed.

Lemma inherited_plain attr : attr ∈ Object_prototype → plain attr.
Proof.
  intros H. unfold Object_prototype in H.
  repeat (apply elem_of_cons in H as [-> | H];
          [apply (bool_decide_unpack _); vm_compute; exact I|]).
  inversion H.
Qed.

(** ** Steps of the world *)

Section Steps.
Context (names : list string) (v : jsval).

Lemma node_step_refl e : node_step names v e e.
Proof. now left. Qed.

Lemma node_step_trans e1 e2 e3 :
  node_step names v e1 e2 → node_step names v e2 e3 → node_step names v e1 e3.
Proof.
  intros [-> | [Hn ->]] [-> | [Hn' ->]]; unfold node_step; auto.
Qed.

Lemma node_step_sync e : node_step names v e (sync names v e).
Proof.
  unfold sync. destruct (selects names e) eqn:Hsel; [right | left]; done.
Qed.

Lemma node_step_synced e e' :
  node_step names v (sync names v e) e' → e' = sync names v e.
Proof.
  intros [-> | [Hn ->]]; [done|].
  rewrite selects_sync in Hn. rewrite (sync_bound _ _ _ Hn). reflexivity.
Qed.

Lemma Forall2_node_step_synced (nodes nodes' : list Node) :
  Forall2 (node_step names v) (sync names v <$> nodes) nodes' →
  nodes' = sync names v <$> nodes.
Proof.
  rewrite Forall2_fmap_l. induction 1 as [|e e' nodes nodes' Hstep _ IH]; [done|].
  simpl. f_equal; [now apply node_step_synced | exact IH].
Qed.


Lemma component_step_refl c : component_step names v c c.
Proof.
  repeat split. apply Forall_Forall2_diag, Forall_forall.
  intros; apply node_step_refl.
Qed.

Lemma component_step_trans c1 c2 c3 :
  component_step names v c1 c2 → component_step names v c2 c3 →
  component_step names v c1 c3.
Proof.
  intros (Hc & Ha & Hs & Hn) (Hc' & Ha' & Hs' & Hn'). repeat split; try congruence.
  eapply Forall2_trans; [| exact Hn | exact Hn'].
  intros ???; apply node_step_trans.
Qed.

Lemma world_step_refl w : world_step names v w w.
Proof.
  repeat split; [|done].
  apply Forall_Forall2_diag, Forall_forall. intros; apply component_step_refl.
Qed.

Lemma world_step_trans w1 w2 w3 :
  world_step names v w1 w2 → world_step names v w2 w3 →
  world_step names v w1 w3.
Proof.
  intros (Hh & Hd & Hl) (Hh' & Hd' & Hl'). repeat split; [|congruence|by etrans].
  eapply Forall2_trans; [| exact Hh | exact Hh'].
  intros ???; apply component_step_trans.
Qed.

End Steps.

Lemma world_step_after_update this c attr v w :
  heap w !! this = Some c →
  world_step (selection attr) v w (after_update this c attr v w).
Proof.
  intros Hc. repeat split; simpl; [| now apply prefix_app_r].
  apply Forall2_same_length_lookup_2; [now rewrite length_insert|].
  intros r c1 c2 H1 H2. destruct (decide (r = this)) as [-> | Hne].
  - rewrite list_lookup_insert_eq in H2 by (eapply lookup_lt_Some; eauto).
    assert (c1 = c) as -> by congruence. injection H2 as <-.
    repeat split. simpl. apply Forall2_fmap_r, Forall_Forall2_diag, Forall_forall.
    intros; apply node_step_sync.
  - rewrite list_lookup_insert_ne in H2 by done.
    assert (c2 = c1) as -> by congruence. apply component_step_refl.
Qed.

Lemma world_step_emit names v e w :
  world_step names v w (final (emit e w)).
Proof.
  repeat split; simpl; [|now apply prefix_app_r].
  apply Forall_Forall2_diag, Forall_forall. intros; apply component_step_refl.
Qed.

(** A loop keeps what each of its rounds keeps. *)
Lemma forEach_final {A : Type} (R : World → World → Prop) (list : list A) (f : A → M unit) :
  (∀ w, R w w) → (∀ w1 w2 w3, R w1 w2 → R w2 w3 → R w1 w3) →
  (∀ x w, R w (final (f x w))) →
  ∀ w, R w (final (forEach list f w)).
Proof.
  intros Hrefl Htrans Hf. induction list as [|x list IH]; intros w; simpl.
  - apply Hrefl.
  - unfold bind. specialize (Hf x w). destruct (f x w) as [[] w' | e w']; simpl in *.
    + eapply Htrans; [exact Hf | apply IH].
    + exact Hf.
Qed.

Lemma notify_subscribers_final (R : World → World → Prop) c attr (call : Ref → M unit) :
  (∀ w, R w w) → (∀ w1 w2 w3, R w1 w2 → R w2 w3 → R w1 w3) →
  (∀ x w, R w (final (call x w))) →
  ∀ w, R w (final (notify_subscribers c attr call w)).
Proof.
  intros Hrefl Htrans Hcall w. unfold notify_subscribers.
  destruct (subscribers c) as [registry|]; [|apply Hrefl].
  destruct (get registry attr); [apply Hrefl | apply Hrefl |].
  now apply forEach_final.
Qed.

(** The first statements of the callback, for a value that changed: the
    selector fails, or the nodes are written. *)
Lemma attributeChangedCallback_failed depth this attr oldValue newValue source w c e :
  newValue ≠ oldValue → heap w !! this = Some c → selected_names attr = inl e →
  attributeChangedCallback (S depth) this attr oldValue newValue source w = Throw e w.
Proof.
  intros Hne Hc Hsel. simpl. unfold strict_eq. rewrite bool_decide_false by done.
  rewrite Hc. unfold update_bound_nodes, bind.
  now rewrite querySelectorAll_selected, Hsel.
Qed.

Lemma attributeChangedCallback_selected depth this attr oldValue newValue source w c names :
  newValue ≠ oldValue → heap w !! this = Some c → selected_names attr = inr names →
  attributeChangedCallback (S depth) this attr oldValue newValue source w =
  notify_subscribers c attr (call_subscriber depth this attr oldValue newValue)
    (after_update this c attr newValue w).
Proof.
  intros Hne Hc Hsel. simpl. unfold strict_eq. rewrite bool_decide_false by done.
  rewrite Hc. unfold update_bound_nodes, after_update.
  rewrite querySelectorAll_selected, (selection_selected _ _ Hsel), Hsel.
  unfold bind, store, emits; simpl.
  rewrite assign_all_sync. reflexivity.
Qed.

Lemma attributeChangedCallback_changed depth this attr oldValue newValue source w c :
  newValue ≠ oldValue → heap w !! this = Some c → plain attr →
  attributeChangedCallback (S depth) this attr oldValue newValue source w =
  notify_subscribers c attr (call_subscriber depth this attr oldValue newValue)
    (after_update this c attr newValue w).
Proof.
  intros Hne Hc Hplain.
  now apply (attributeChangedCallback_selected _ _ _ _ _ _ _ _ ["bind-" +:+ attr]),
            selected_names_plain.
Qed.

(** However a fan-out ends, the world only moved by [world_step]. *)
Lemma attributeChangedCallback_step depth this attr oldValue newValue source w :
  world_step (selection attr) newValue w
    (final (attributeChangedCallback depth this attr oldValue newValue source w)).
Proof.
  revert this source w. induction depth as [|depth IH]; intros this source w.
  - apply world_step_refl.
  - destruct (decide (newValue = oldValue)) as [Heq | Hne].
    + simpl. unfold strict_eq. rewrite bool_decide_true by done. apply world_step_refl.
    + destruct (heap w !! this) as [c|] eqn:Hc.
      * destruct (selected_names attr) as [e | names] eqn:Hsel.
        { rewrite (attributeChangedCallback_failed _ _ _ _ _ _ _ c e) by done.
          apply world_step_refl. }
        rewrite (attributeChangedCallback_selected _ _ _ _ _ _ _ c names) by done.
        eapply world_step_trans; [apply (world_step_after_update this c); exact Hc|].
        apply notify_subscribers_final;
          [apply world_step_refl | apply world_step_trans |].
        intros s w'. unfold call_subscriber, bind. simpl.
        eapply world_step_trans;
          [apply (world_step_emit _ _ (Invoke s attr oldValue newValue (Some this)))|].
        apply IH.
      * simpl. unfold strict_eq. rewrite bool_decide_false by done. rewrite Hc.
        apply world_step_refl.
Qed.

Lemma world_step_lookup names v w w' r c :
  world_step names v w w' → heap w !! r = Some c →
  ∃ c', heap w' !! r = Some c' ∧ component_step names v c c'.
Proof.
  intros (Hh & _) Hc. eapply Forall2_lookup_l in Hh as (c' & Hc' & Hstep); eauto.
Qed.

(** After the callback, when the selector was read, the scope of [this] is
    the old scope with every node synced, whether the fan-out returned or
    raised. *)
Lemma attributeChangedCallback_scope depth this attr oldValue newValue source w c names :
  newValue ≠ oldValue → heap w !! this = Some c → selected_names attr = inr names →
  ∃ c', heap (final (attributeChangedCallback (S depth) this attr oldValue newValue source w))
          !! this = Some c' ∧
        class c' = class c ∧ attributes c' = attributes c ∧
        subscribers c' = subscribers c ∧
        shadowRoot c' = sync names newValue <$> shadowRoot c.
Proof.
  intros Hne Hc Hsel.
  rewrite (attributeChangedCallback_selected _ _ _ _ _ _ _ c names) by done.
  pose proof (notify_subscribers_final (world_step (selection attr) newValue) c attr
    (call_subscriber depth this attr oldValue newValue)
    (world_step_refl _ _) (world_step_trans _ _)) as Hstep.
  assert (Hcall : ∀ x w0, world_step (selection attr) newValue w0
            (final (call_subscriber depth this attr oldValue newValue x w0))).
  { intros s w0. unfold call_subscriber, bind. simpl.
    eapply world_step_trans;
      [apply (world_step_emit _ _ (Invoke s attr oldValue newValue (Some this)))|].
    apply attributeChangedCallback_step. }
  specialize (Hstep Hcall (after_update this c attr newValue w)).
  eapply world_step_lookup in Hstep as (c' & Hc' & Hcl & Hat & Hsu & Hno).
  2:{ simpl. apply list_lookup_insert_eq. eapply lookup_lt_Some; eauto. }
  exists c'. simpl in *. repeat split; try done.
  rewrite (selection_selected _ _ Hsel) in Hno.
  now apply Forall2_node_step_synced.
Qed.

Lemma same_value_returns depth this attr oldValue newValue source w :
  newValue = oldValue →
  attributeChangedCallback (S depth) this attr oldValue newValue source w = Ok tt w.
Proof.
  intros ->. simpl. unfold strict_eq. now rewrite bool_decide_true.
Qed.

(** ** Termination on a static subscriber graph *)

Lemma world_step_length names v w w' :
  world_step names v w w' → length (heap w') = length (heap w).
Proof. intros (Hh & _). symmetry. eapply Forall2_length, Hh. Qed.



Lemma call_subscriber_step depth this attr oldValue newValue s w :
  world_step (selection attr) newValue w
    (final (call_subscriber depth this attr oldValue newValue s w)).
Proof.
  unfold call_subscriber, bind. simpl.
  eapply world_step_trans;
    [apply (world_step_emit _ _ (Invoke s attr oldValue newValue (Some this)))|].
  apply attributeChangedCallback_step.
Qed.

Lemma get_own {A : Type} (registry : gmap string A) attr :
  attr ∉ Object_prototype →
  get registry attr = from_option Own Undefined (registry !! attr).
Proof.
  intros H. unfold get. destruct (registry !! attr); [done|].
  now rewrite bool_decide_false.
Qed.


(** ** The log of a fan-out *)




(** * The claims *)

(** ** Attribute to nodes *)


(** A quote or a line break in the attribute name makes the selector of
    line 68 no selector: [querySelectorAll] raises before a node is
    written or a subscriber called. *)
Example quoted_name_raises :
  attributeChangedCallback 1 0 quoted JUndefined (JStr "1") None odd_names
  = Throw SyntaxError odd_names
  ∧ attributeChangedCallback 2 0 ("data-" +:+ String "010" "spam") JUndefined (JStr "1") None page
    = Throw SyntaxError page.
Proof. split; vm_compute; reflexivity. Qed.



(** C2.  When the new value equals the old value (the same string, or both
    absent), [attributeChangedCallback] returns at once and leaves the world
    as it was: no node is written, no subscriber is invoked, nothing is
    logged. *)
Theorem unchanged_value_is_noop depth this attr oldValue newValue source w :
  newValue = oldValue →
  attributeChangedCallback (S depth) this attr oldValue newValue source w = Ok tt w.
Proof. apply same_value_returns. Qed.

Lemma unchanged_value_is_noop_witness :
  attributeChangedCallback 1 0 "data-spam" JUndefined JUndefined None page = Ok tt page
  ∧ attributeChangedCallback 1 0 "data-spam" (JStr "1") (JStr "1") None page = Ok tt page.
Proof.
  split.
  - apply (unchanged_value_is_noop 0 0 "data-spam" JUndefined JUndefined None page).
    reflexivity.
  - apply (unchanged_value_is_noop 0 0 "data-spam" (JStr "1") (JStr "1") None page).
    reflexivity.
Defined.





(** ** Order of a notification *)



(** The fan-out on [page], step by step: the two bound nodes of the
    publisher, then subscriber 1 and its nodes, then 2, then 3. *)
Example page_fan_out :
  log (final (attributeChangedCallback 2 0 "data-spam" JUndefined (JStr "1") None page)) =
  [ DomUpdate 0 0 (JStr "1"); DomUpdate 0 1 (JStr "1");
    Invoke 1 "data-spam" JUndefined (JStr "1") (Some 0);
    DomUpdate 1 0 (JStr "1"); DomUpdate 1 1 (JStr "1");
    Invoke 2 "data-spam" JUndefined (JStr "1") (Some 0);
    DomUpdate 2 0 (JStr "1"); DomUpdate 2 1 (JStr "1");
    Invoke 3 "data-spam" JUndefined (JStr "1") (Some 0);
    DomUpdate 3 0 (JStr "1"); DomUpdate 3 1 (JStr "1") ].
Proof. vm_compute. reflexivity. Qed.

(** [page] is a static graph: the publisher ranks above its subscribers,
    so the fan-out above returns. *)
Example page_well_ranked :
  well_ranked "data-spam" (fun r => match r with 0 => 1 | _ => 0 end) page ∧
  returns (attributeChangedCallback 2 0 "data-spam" JUndefined (JStr "1") None page).
Proof.
  split; [|exact I].
  intros r c subs s Hc Hreg Hs.
  destruct r as [|[|[|[|r]]]]; simpl in Hc; try discriminate Hc;
    injection Hc as <-; try discriminate Hreg.
  injection Hreg as <-.
  repeat (apply elem_of_cons in Hs as [-> | Hs]; [simpl; lia|]).
  inversion Hs.
Qed.

(** ** The render scope after a notification, for any attribute name *)

Lemma sync_nil v (nodes : list Node) : sync [] v <$> nodes = nodes.
Proof.
  rewrite <- (list_fmap_id nodes) at 2. apply list_fmap_ext. intros _ e _.
  apply (sync_other [] v e). unfold selects. destruct (name e); [|done].
  apply bool_decide_eq_false. intros H. inversion H.
Qed.

Lemma attributeChangedCallback_scope_any depth this attr oldValue newValue source w c :
  newValue ≠ oldValue → heap w !! this = Some c →
  ∃ c', heap (final (attributeChangedCallback (S depth) this attr oldValue newValue source w))
          !! this = Some c' ∧
        class c' = class c ∧ attributes c' = attributes c ∧
        subscribers c' = subscribers c ∧
        shadowRoot c' = sync (selection attr) newValue <$> shadowRoot c.
Proof.
  intros Hne Hc. destruct (selected_names attr) as [e | names] eqn:Hsel.
  - rewrite (attributeChangedCallback_failed _ _ _ _ _ _ _ c e) by done.
    exists c. rewrite (selection_failed _ _ Hsel), sync_nil. done.
  - rewrite (selection_selected _ _ Hsel).
    now apply attributeChangedCallback_scope.
Qed.

Lemma lowercase_plain key : lowercase key → plain ("data-" +:+ key).
Proof.
  intros Hkey.
  repeat (apply plain_cons; split; [apply (bool_decide_unpack _); vm_compute; exact I|]).
  unfold plain, lowercase in *. eapply Forall_impl; [exact Hkey|].
  intros ch Hch. unfold letters in Hch. simpl in Hch.
  repeat (apply elem_of_cons in Hch as [-> | Hch];
          [apply (bool_decide_unpack _); vm_compute; exact I|]).
  inversion Hch.
Qed.

(** ** Letters and names *)

Lemma is_lower_letters c : is_lower c = true ↔ c ∈ letters.
Proof.
  split.
  - destruct c as [[] [] [] [] [] [] [] []]; intros H; vm_compute in H;
      try discriminate H; apply (bool_decide_unpack _); vm_compute; exact I.
  - intros H. unfold letters in H. simpl in H.
    repeat (apply elem_of_cons in H as [-> | H]; [reflexivity|]).
    inversion H.
Qed.

Lemma letters_plain c :
  c ∈ letters → is_upper c = false ∧ forbidden_in_name c = false ∧ c ≠ "-"%char.
Proof.
  intros H. unfold letters in H. simpl in H.
  repeat (apply elem_of_cons in H as [-> | H]; [repeat split; vm_compute; congruence|]).
  inversion H.
Qed.

Lemma lowercase_cons c s : lowercase (String c s) ↔ c ∈ letters ∧ lowercase s.
Proof. unfold lowercase. simpl. now rewrite Forall_cons. Qed.

Lemma all_lower_lowercase s : all_lower s = true ↔ lowercase s.
Proof.
  induction s as [|c s IH]; simpl.
  - split; [intros _; constructor | done].
  - rewrite lowercase_cons, andb_true_iff, IH, is_lower_letters. done.
Qed.

Lemma strip_prefix_Some prefix s rest :
  strip_prefix prefix s = Some rest ↔ s = prefix +:+ rest.
Proof.
  revert s. induction prefix as [|a prefix IH]; intros s.
  - change (Some s = Some rest ↔ s = rest). split; congruence.
  - destruct s as [|b s]; [split; discriminate|].
    change ((if bool_decide (a = b) then strip_prefix prefix s else None) = Some rest ↔
            String b s = String a (prefix +:+ rest)).
    case_bool_decide as Hab.
    + subst b. rewrite IH. split; congruence.
    + split; [discriminate | congruence].
Qed.

(** The regular expression of the listener, followed by the test on its
    group, recognises exactly the names [bind-data-] plus lowercase word. *)
Lemma regex_match_bind_data_name s :
  bind_data_name s ↔ ∃ word, regex_match s = Some word ∧ word ≠ "".
Proof.
  unfold bind_data_name, regex_match. split.
  - intros (word & Hne & Hlow & ->). exists word.
    rewrite (proj2 (strip_prefix_Some "bind-data-" _ word) eq_refl).
    now rewrite (proj2 (all_lower_lowercase word) Hlow).
  - intros (word & Hm & Hne).
    destruct (strip_prefix "bind-data-" s) as [group|] eqn:Hs; [|discriminate].
    destruct (all_lower group) eqn:Hl; [|discriminate].
    injection Hm as ->. exists word. repeat split; [done | | ].
    + now apply all_lower_lowercase.
    + now apply strip_prefix_Some.
Qed.

(** ** Nodes to attribute *)

(** C8.  A change event whose target has no name, or a name that is not
    [bind-data-] followed by one or more lowercase letters, is ignored by
    the listener: it returns without an exception and leaves the world as
    it was (no attribute written, no node updated, no callback invoked). *)
Theorem unmatched_change_ignored depth this target w :
  (∀ s, name target = Some s → ¬ bind_data_name s) →
  change_listener depth this target w = Ok tt w.
Proof.
  intros H. unfold change_listener, name_property.
  destruct (control target); [|done].
  destruct (name target) as [s|] eqn:Hname; [|done].
  simpl. destruct s as [|a s]; [done|].
  destruct (regex_match (String a s)) as [group|] eqn:Hm; [|done].
  destruct group as [|b group]; [done|].
  exfalso. apply (H (String a s) eq_refl).
  apply regex_match_bind_data_name. exists (String b group). done.
Qed.

Lemma unmatched_change_ignored_witness :
  change_listener 2 0
    {| name := Some "bind-data-highScore"; control := true; textContent := JStr "";
       value := JStr "9" |}
    page = Ok tt page
  ∧ change_listener 2 0
      {| name := Some "bind-data-"; control := true; textContent := JStr "";
         value := JStr "9" |}
      page = Ok tt page
  ∧ change_listener 2 0
      {| name := None; control := true; textContent := JStr ""; value := JStr "9" |}
      page = Ok tt page.
Proof.
  split; [|split].
  - apply (unmatched_change_ignored 2 0
             {| name := Some "bind-data-highScore"; control := true;
                textContent := JStr ""; value := JStr "9" |} page).
    intros s [= <-] (word & Hm & _)%regex_match_bind_data_name.
    vm_compute in Hm. discriminate Hm.
  - apply (unmatched_change_ignored 2 0
             {| name := Some "bind-data-"; control := true; textContent := JStr "";
         value := JStr "9" |}
             page).
    intros s [= <-] (word & Hm & Hne)%regex_match_bind_data_name.
    vm_compute in Hm. congruence.
  - apply (unmatched_change_ignored 2 0
             {| name := None; control := true; textContent := JStr ""; value := JStr "9" |} page).
    intros s [=].
Defined.

(** ** [dataset] *)

Lemma hyphen_lower_lowercase key : lowercase key → hyphen_lower key = false.
Proof.
  induction key as [|c key IH]; [done|].
  rewrite lowercase_cons. intros [Hc Hkey]. simpl.
  destruct key as [|d key]; [done|].
  destruct (letters_plain c Hc) as (_ & _ & Hhyphen).
  rewrite bool_decide_false by done. simpl. now apply IH.
Qed.

Lemma hyphenate_lowercase key : lowercase key → hyphenate key = key.
Proof.
  induction key as [|c key IH]; [done|].
  rewrite lowercase_cons. intros [Hc Hkey]. simpl.
  destruct (letters_plain c Hc) as (-> & _ & _). now rewrite IH.
Qed.

Lemma free_of_forbidden_lowercase key : lowercase key → free_of_forbidden key = true.
Proof.
  induction key as [|c key IH]; [done|].
  rewrite lowercase_cons. intros [Hc Hkey]. simpl.
  destruct (letters_plain c Hc) as (_ & -> & _). now rewrite IH.
Qed.

(** For a key of lowercase letters, [dataset[key]] is the attribute
    [data-key]. *)
Lemma dataset_attribute_lowercase key :
  lowercase key → dataset_attribute key = inr ("data-" +:+ key).
Proof.
  intros H. unfold dataset_attribute.
  rewrite hyphen_lower_lowercase, hyphenate_lowercase by done.
  change (free_of_forbidden ("data-" +:+ key)) with (free_of_forbidden key).
  now rewrite free_of_forbidden_lowercase.
Qed.

Lemma component_eq c1 c2 :
  class c1 = class c2 → attributes c1 = attributes c2 →
  shadowRoot c1 = shadowRoot c2 → subscribers c1 = subscribers c2 → c1 = c2.
Proof. destruct c1, c2; simpl; congruence. Qed.

(** What an assignment to [dataset] leaves behind in the element: the
    attribute is written; the scope is synced when the host delivered the
    change to the callback and the value was new to it. *)
Lemma dataset_set_element depth this key v w c attr :
  heap w !! this = Some c → dataset_attribute key = inr attr →
  ∃ w' c',
    dataset_set depth this key v w = Ok tt w' ∧
    heap w' !! this = Some c' ∧
    class c' = class c ∧
    attributes c' = <[attr := to_string v]> (attributes c) ∧
    subscribers c' = subscribers c ∧
    (shadowRoot c' = shadowRoot c ∨
     shadowRoot c' = sync (selection attr) (JStr (to_string v)) <$> shadowRoot c) ∧
    (delivers w = true → attr ∈ observedAttributes (class c) →
     attributes c !! attr ≠ Some (to_string v) → depth ≠ 0 →
     shadowRoot c' = sync (selection attr) (JStr (to_string v)) <$> shadowRoot c) ∧
    log w `prefix_of` log w' ∧
    delivers w' = delivers w.
Proof.
  intros Hc Hattr. unfold dataset_set. rewrite Hc, Hattr.
  unfold bind, store. simpl. unfold attribute_changed. simpl.
  pose proof (lookup_lt_Some _ _ _ Hc) as Hlt.
  rewrite list_lookup_insert_eq by done. simpl.
  set (c1 := with_attributes c (<[attr := to_string v]> (attributes c))).
  set (old := from_option JStr JNull (attributes c !! attr)).
  set (stored := {| heap := <[this := c1]> (heap w); delivers := delivers w; log := log w |}).
  assert (Hstored : heap stored !! this = Some c1)
    by (simpl; now apply list_lookup_insert_eq).
  destruct (delivers w && bool_decide (attr ∈ observedAttributes (class c))) eqn:Hd.
  - apply andb_true_iff in Hd as [Hdel Hobs]. apply bool_decide_eq_true in Hobs.
    unfold bind, emit. simpl.
    set (logged := {| heap := <[this := c1]> (heap w); delivers := delivers w;
                      log := log w ++ [Invoke this attr old (JStr (to_string v)) None] |}).
    assert (Hlogged : heap logged !! this = Some c1) by exact Hstored.
    pose proof (attributeChangedCallback_step depth this attr old (JStr (to_string v))
                  None logged) as (_ & Hdelivers & Hlog).
    destruct depth as [|depth].
    + exists logged, c1. simpl. repeat split; auto; try done. now apply prefix_app_r.
    + destruct (decide (JStr (to_string v) = old)) as [Heq | Hne].
      * rewrite same_value_returns by done. exists logged, c1. simpl.
        repeat split; auto; try now apply prefix_app_r.
        intros _ _ Hold _. exfalso. apply Hold. unfold old in Heq.
        destruct (attributes c !! attr); simpl in Heq; congruence.
      * destruct (attributeChangedCallback_scope_any depth this attr old (JStr (to_string v))
                    None logged c1 Hne Hlogged) as (c' & Hc' & Hcl & Hat & Hsu & Hno).
        eexists _, c'. split; [reflexivity|]. repeat split; auto.
        etrans; [|exact Hlog]. simpl. now apply prefix_app_r.
  - exists stored, c1. repeat split; auto.
    intros Hdel Hobs _ _. rewrite Hdel in Hd. simpl in Hd.
    apply bool_decide_eq_false in Hd. done.
Qed.




(** ** Construction *)


(** One round of the loop on an element without subscribers. *)
Lemma initialise_round depth this key v w c :
  heap w !! this = Some c → subscribers c = None → lowercase key →
  ∃ w',
    initialise (S depth) this (key, v) w = Ok tt w' ∧
    heap w' !! this = Some (seed c (key, v)) ∧
    log w `prefix_of` log w' ∧
    Invoke this ("data-" +:+ key) JUndefined (JStr v) None ∈ log w'.
Proof.
  intros Hc Hsub Hkey. unfold initialise.
  destruct (dataset_set_element (S depth) this key (JStr v) w c ("data-" +:+ key) Hc
              (dataset_attribute_lowercase key Hkey))
    as (w1 & c1 & Hset & Hc1 & Hcl & Hat & Hsu & Hno & _ & Hlog & _).
  unfold bind at 1. rewrite Hset. unfold bind, emit. cbv beta iota.
  set (w2 := {| heap := heap w1; delivers := delivers w1;
                log := log w1 ++ [Invoke this ("data-" +:+ key) JUndefined (JStr v) None] |}).
  pose proof (lowercase_plain key Hkey) as Hplain.
  rewrite (attributeChangedCallback_changed _ _ _ _ _ _ w2 c1) by done.
  unfold notify_subscribers. rewrite Hsu, Hsub.
  eexists. split; [reflexivity|]. simpl. split; [|split].
  - rewrite list_lookup_insert_eq by (eapply lookup_lt_Some; eauto). f_equal.
    rewrite (selection_plain _ Hplain) in *.
    apply component_eq; simpl; try done.
    destruct Hno as [-> | ->]; [done|].
    rewrite <- list_fmap_compose. apply list_fmap_ext. intros _ e _. simpl.
    apply sync_idemp.
  - apply prefix_app_r. now apply prefix_app_r.
  - apply elem_of_app. left. apply elem_of_app. right. left.
Qed.

Lemma initialise_loop depth this config w c :
  heap w !! this = Some c → subscribers c = None →
  Forall (fun entry => lowercase entry.1) config →
  ∃ w',
    forEach config (initialise (S depth) this) w = Ok tt w' ∧
    heap w' !! this = Some (foldl seed c config) ∧
    log w `prefix_of` log w' ∧
    ∀ key v, (key, v) ∈ config →
             Invoke this ("data-" +:+ key) JUndefined (JStr v) None ∈ log w'.
Proof.
  revert w c. induction config as [|[key v] config IH]; intros w c Hc Hsub Hkeys.
  - exists w. repeat split; try done. intros key v H. inversion H.
  - apply Forall_cons in Hkeys as [Hkey Hkeys].
    destruct (initialise_round depth this key v w c Hc Hsub Hkey)
      as (w1 & Hrun & Hc1 & Hlog1 & Hin1).
    destruct (IH w1 (seed c (key, v)) Hc1 Hsub Hkeys) as (w' & Hrest & Hc' & Hlog & Hin).
    exists w'. cbn [forEach]. unfold bind. rewrite Hrun. split; [exact Hrest|].
    split; [exact Hc'|]. split; [by etrans|].
    intros key' v' [[= -> ->] | H]%elem_of_cons; [|now apply Hin].
    destruct Hlog as [t ->]. apply elem_of_app. now left.
Qed.







(** The construction of the specification's example, on a host that does
    not deliver: both bound nodes hold the value of [spam]. *)
Example construction_without_delivery :
  (shadowRoot <$> heap (final (constructor 1 MyComponent [("spam", "1"); ("eggs", "2")]
                                 (blank false)))) =
  [[ {| name := Some "bind-data-spam"; control := false; textContent := JStr "1";
        value := JStr "1" |};
     {| name := Some "bind-data-spam"; control := true; textContent := JStr "1";
        value := JStr "1" |};
     paragraph ]].
Proof. vm_compute. reflexivity. Qed.

(** ** Which attributes are bound *)

(** C6 does not hold of the code: the callback selects [bind-] plus the
    attribute name for any name, without the test on the name that the
    change listener applies.  A notification for [data-high-score], or for
    [somethingElse], writes the node bound to it; and the host delivers
    such a notification when [dataset.highScore] is assigned. *)
Lemma notification_binds_any_name :
  (shadowRoot <$> heap (final (attributeChangedCallback 1 0 "data-high-score" JNull (JStr "7")
                                 None scoreboard))) =
    [[ {| name := Some "bind-data-high-score"; control := false; textContent := JStr "7";
          value := JStr "7" |};
       {| name := Some "bind-somethingElse"; control := false; textContent := JStr "";
          value := JUndefined |} ]]
  ∧ (shadowRoot <$> heap (final (attributeChangedCallback 1 0 "somethingElse" JNull (JStr "7")
                                   None scoreboard))) =
    [[ {| name := Some "bind-data-high-score"; control := false; textContent := JStr "";
          value := JUndefined |};
       {| name := Some "bind-somethingElse"; control := false; textContent := JStr "7";
          value := JStr "7" |} ]]
  ∧ (shadowRoot <$> heap (final (dataset_set 1 0 "highScore" (JStr "7") scoreboard))) =
    [[ {| name := Some "bind-data-high-score"; control := false; textContent := JStr "7";
          value := JStr "7" |};
       {| name := Some "bind-somethingElse"; control := false; textContent := JStr "";
          value := JUndefined |} ]].
Proof. repeat split; vm_compute; reflexivity. Qed.

(** ** Registration *)

Lemma registered_with_subscribers c registry attr :
  registered (with_subscribers c registry) attr = registry !! attr.
Proof. reflexivity. Qed.

Lemma registered_default c attr :
  default ∅ (subscribers c) !! attr = registered c attr.
Proof. unfold registered. now destruct (subscribers c). Qed.

(** X11.  For an attribute name that is not a property of [Object.prototype],
    registration returns the element and appends the subscriber to the
    list of that name, keeping what was there, duplicates included. *)
Lemma observeAttribute_appends this attributeName subscriber w c :
  heap w !! this = Some c → attributeName ∉ Object_prototype →
  ∃ w' c',
    observeAttribute this attributeName subscriber w = Ok this w' ∧
    heap w' !! this = Some c' ∧
    registered c' attributeName = Some (subscribers_of c attributeName ++ [subscriber]).
Proof.
  intros Hc Hname. unfold observeAttribute. rewrite Hc.
  pose proof (lookup_lt_Some _ _ _ Hc) as Hlt.
  unfold bind, store at 1. cbv beta iota. rewrite get_own by done.
  rewrite registered_default. unfold subscribers_of.
  destruct (registered c attributeName) as [subs|]; simpl.
  - eexists _, _. split; [reflexivity|]. simpl.
    rewrite list_lookup_insert_eq by (now rewrite length_insert).
    split; [reflexivity|]. rewrite registered_with_subscribers. apply lookup_insert_eq.
  - eexists _, _. split; [reflexivity|]. simpl.
    rewrite list_lookup_insert_eq by (now rewrite length_insert).
    split; [reflexivity|]. rewrite registered_with_subscribers. apply lookup_insert_eq.
Qed.

(** Registering the same subscriber twice yields two entries, and the
    calls chain on the returned element. *)
Example registration_twice :
  ∃ w' c',
    bind (observeAttribute 0 "data-eggs" 1)
         (fun this => observeAttribute this "data-eggs" 1) page = Ok 0 w' ∧
    heap w' !! 0 = Some c' ∧
    registered c' "data-eggs" = Some [1; 1] ∧
    registered c' "data-spam" = Some [1; 2; 3].
Proof.
  eexists _, _. split; [vm_compute; reflexivity|].
  split; [vm_compute; reflexivity|]. split; vm_compute; reflexivity.
Qed.

(** C9 does not hold of the code for the attribute names that every object
    inherits: the registry is an object literal, so for [constructor] the
    test of line 83 finds the inherited function instead of [undefined],
    no list is created, and [push] on that function raises [TypeError]. *)
Lemma observeAttribute_inherited_name :
  (∃ w' c', observeAttribute 0 "constructor" 1 page = Throw TypeError w' ∧
            heap w' !! 0 = Some c' ∧
            registered c' "constructor" = None ∧
            registered c' "data-spam" = Some [1; 2; 3])
  ∧ (∃ w' c', observeAttribute 1 "constructor" 0 page = Throw TypeError w' ∧
              heap w' !! 1 = Some c' ∧
              subscribers c' = Some ∅).
Proof.
  split; eexists _, _; (split; [vm_compute; reflexivity|]);
    (split; [vm_compute; reflexivity|]); repeat split; vm_compute; reflexivity.
Qed.

(** C10.  Registration for attribute A, however it ends, leaves the list of
    every other attribute B of every element as it was, changes no node,
    no attribute and no class of any element, invokes nothing and keeps
    the elements of the store in place. *)
Theorem observeAttribute_frame this A subscriber w B r c :
  A ≠ B → heap w !! r = Some c →
  let w' := final (observeAttribute this A subscriber w) in
  (∃ c', heap w' !! r = Some c' ∧
         registered c' B = registered c B ∧
         shadowRoot c' = shadowRoot c ∧
         attributes c' = attributes c ∧
         class c' = class c) ∧
  length (heap w') = length (heap w) ∧
  log w' = log w ∧
  delivers w' = delivers w.
Proof.
  intros Hne Hr. unfold observeAttribute.
  destruct (heap w !! this) as [c0|] eqn:Hc0; simpl.
  2:{ repeat split; try done. exists c. done. }
  pose proof (lookup_lt_Some _ _ _ Hc0) as Hlt.
  unfold bind, store at 1. cbv beta iota.
  assert (Hframe : ∀ registry,
            registry !! B = registered c0 B →
            ∃ c', <[this := with_subscribers c0 registry]> (heap w) !! r = Some c' ∧
                  registered c' B = registered c B ∧ shadowRoot c' = shadowRoot c ∧
                  attributes c' = attributes c ∧ class c' = class c).
  { intros registry Hreg. destruct (decide (r = this)) as [-> | Hother].
    - rewrite list_lookup_insert_eq by done. eexists. split; [reflexivity|].
      assert (c0 = c) as -> by congruence. rewrite registered_with_subscribers. done.
    - rewrite list_lookup_insert_ne by done. exists c. done. }
  destruct (get (default ∅ (subscribers c0)) A) as [| |subs]; simpl;
    rewrite ?list_insert_insert_eq, ?length_insert; repeat split; try done;
    apply Hframe; rewrite ?lookup_insert_ne by done; apply registered_default.
Qed.

Lemma observeAttribute_frame_witness :
  let w' := final (observeAttribute 0 "data-eggs" 1 page) in
  (∃ c', heap w' !! 0 = Some c' ∧
         registered c' "data-spam" = registered (instance (Some [1; 2; 3])) "data-spam" ∧
         shadowRoot c' = shadowRoot (instance (Some [1; 2; 3])) ∧
         attributes c' = attributes (instance (Some [1; 2; 3])) ∧
         class c' = class (instance (Some [1; 2; 3]))) ∧
  length (heap w') = length (heap page) ∧
  log w' = log page ∧
  delivers w' = delivers page.
Proof.
  apply (observeAttribute_frame 0 "data-eggs" 1 page "data-spam" 0
           (instance (Some [1; 2; 3]))).
  - discriminate.
  - reflexivity.
Defined.

(** * Further properties *)

(** ** The subscriber graph under a fan-out *)

Lemma component_step_subscribers_of selected v c c' attr :
  component_step selected v c c' → subscribers_of c' attr = subscribers_of c attr.
Proof. intros (_ & _ & Hsub & _). unfold subscribers_of, registered. now rewrite Hsub. Qed.

Lemma edge_step selected v attr w w' r s :
  world_step selected v w w' → edge w attr r s ↔ edge w' attr r s.
Proof.
  intros (Hh & _). split; intros (c & Hc & Hs).
  - eapply Forall2_lookup_l in Hh as (c' & Hc' & Hstep); [|exact Hc].
    exists c'. split; [exact Hc'|].
    now rewrite (component_step_subscribers_of _ _ _ _ attr Hstep).
  - eapply Forall2_lookup_r in Hh as (c' & Hc' & Hstep); [|exact Hc].
    exists c'. split; [exact Hc'|].
    now rewrite <- (component_step_subscribers_of _ _ _ _ attr Hstep).
Qed.

Lemma chain_step selected v attr w w' r n :
  world_step selected v w w' → chain w attr r n ↔ chain w' attr r n.
Proof.
  intros Hstep. split; induction 1 as [|r s n Hedge _ IH]; try constructor.
  - econstructor; [|exact IH]. now apply (edge_step _ _ _ _ _ _ _ Hstep).
  - econstructor; [|exact IH]. now apply (edge_step _ _ _ _ _ _ _ Hstep).
Qed.


(** The world in which a subscriber's callback starts. *)
Lemma call_subscriber_run depth this attr oldValue newValue s w :
  ∃ w0, world_step (selection attr) newValue w w0 ∧
        call_subscriber depth this attr oldValue newValue s w =
        attributeChangedCallback depth s attr oldValue newValue (Some this) w0.
Proof.
  eexists. split; [|reflexivity].
  apply (world_step_emit _ _ (Invoke s attr oldValue newValue (Some this))).
Qed.

(** In a loop that returned, every round returned, from a world the loop
    passed through. *)
Lemma forEach_returns_elem {A : Type} (R : World → World → Prop) (xs : list A)
    (f : A → M unit) (x : A) (w : World) :
  (∀ w, R w w) → (∀ w1 w2 w3, R w1 w2 → R w2 w3 → R w1 w3) →
  (∀ y w, R w (final (f y w))) →
  returns (forEach xs f w) → x ∈ xs →
  ∃ w', R w w' ∧ returns (f x w') ∧ R (final (f x w')) (final (forEach xs f w)).
Proof.
  intros Hrefl Htrans Hf. revert w.
  induction xs as [|y xs IH]; intros w Hret Hx; [inversion Hx|].
  cbn [forEach] in *. unfold bind in *.
  pose proof (Hf y w) as Hy.
  destruct (f y w) as [[] w1 | e w1] eqn:Hrun; [|done]. simpl in Hy.
  apply elem_of_cons in Hx as [-> | Hx].
  - exists w. split; [apply Hrefl|]. rewrite Hrun. split; [exact I|]. simpl.
    now apply forEach_final.
  - destruct (IH w1 Hret Hx) as (w' & Hw' & Hr & Hfin).
    exists w'. split; [eapply Htrans; eauto | done].
Qed.

(** The subscribers of an element with a registered subscriber, as the
    callback finds them. *)
Lemma notify_subscribers_registered c attr s (call : Ref → M unit) :
  s ∈ subscribers_of c attr →
  notify_subscribers c attr call = forEach (subscribers_of c attr) call.
Proof.
  unfold notify_subscribers, subscribers_of, registered, get.
  destruct (subscribers c) as [registry|]; simpl; [|intros H; inversion H].
  destruct (registry !! attr) as [subs|]; simpl; [done | intros H; inversion H].
Qed.

(** A returning notification went down every chain of the element. *)
Lemma returns_bounds_chains depth this attr oldValue newValue source w n :
  newValue ≠ oldValue →
  returns (attributeChangedCallback depth this attr oldValue newValue source w) →
  chain w attr this n → n < depth.
Proof.
  intros Hne. revert this source w n.
  induction depth as [|depth IH]; intros this source w n Hret Hchain; [done|].
  destruct Hchain as [r | r s n (c & Hc & Hs) Hchain]; [lia|].
  destruct (selected_names attr) as [e | names] eqn:Hsel.
  { now rewrite (attributeChangedCallback_failed _ _ _ _ _ _ _ c e) in Hret. }
  rewrite (attributeChangedCallback_selected _ _ _ _ _ _ _ c names) in Hret by done.
  rewrite (notify_subscribers_registered c attr s) in Hret by done.
  destruct (forEach_returns_elem (world_step (selection attr) newValue) _ _ s _
              (world_step_refl _ _) (world_step_trans _ _)
              (call_subscriber_step depth r attr oldValue newValue) Hret Hs)
    as (w' & Hw' & Hret' & _).
  destruct (call_subscriber_run depth r attr oldValue newValue s w') as (w0 & Hw0 & Hrun).
  rewrite Hrun in Hret'. assert (n < depth); [|lia]. eapply IH; [exact Hret'|].
  apply (chain_step _ _ _ _ _ _ _ Hw0), (chain_step _ _ _ _ _ _ _ Hw').
  now apply (chain_step _ _ _ _ _ _ _ (world_step_after_update r c attr newValue w Hc)).
Qed.




(** ** When a notification returns *)



Lemma chain_reaches w attr r t n :
  reaches w attr r t → chain w attr t n → ∃ m, (n ≤ m)%nat ∧ chain w attr r m.
Proof.
  induction 1 as [r | r s t Hedge _ IH]; intros Hchain.
  - exists n. split; [lia | done].
  - destruct (IH Hchain) as (m & Hm & Hs). exists (S m). split; [lia|].
    econstructor; eauto.
Qed.

Lemma cycle_chains w attr this r k :
  reaches w attr this r → edge w attr r this → ∃ m, (k ≤ m)%nat ∧ chain w attr this m.
Proof.
  intros Hreach Hedge. induction k as [|k (m & Hm & Hchain)].
  - exists 0. split; [lia | constructor].
  - destruct (chain_reaches w attr this r (S m) Hreach) as (m' & Hm' & Hchain').
    { econstructor; eauto. }
    exists m'. split; [lia | done].
Qed.

(** X2.  When the element is registered, directly or through other
    elements, on one of its own subscribers (or on itself), a notification
    with a changed value never returns normally, whatever the depth of the
    stack: the fan-out runs until the stack is exhausted or a call fails. *)
Theorem cyclic_subscription_never_returns depth this attr oldValue newValue source w r :
  newValue ≠ oldValue → reaches w attr this r → edge w attr r this →
  ¬ returns (attributeChangedCallback depth this attr oldValue newValue source w).
Proof.
  intros Hne Hreach Hedge Hret.
  destruct (cycle_chains w attr this r depth Hreach Hedge) as (m & Hm & Hchain).
  pose proof (returns_bounds_chains _ _ _ _ _ _ _ _ Hne Hret Hchain). lia.
Qed.

Lemma cyclic_subscription_never_returns_witness :
  ¬ returns (attributeChangedCallback 7 0 "data-spam" JUndefined (JStr "1") None mutual).
Proof.
  apply (cyclic_subscription_never_returns 7 0 "data-spam" JUndefined (JStr "1") None
           mutual 1).
  - discriminate.
  - apply (reaches_link mutual "data-spam" 0 1 1); [|apply reaches_here].
    exists (instance (Some [1])). split; [reflexivity | left].
  - exists (instance (Some [0])). split; [reflexivity | left].
Defined.

(** ** What a notification reaches and what it keeps *)





(** X4.  A notification, however it ends, writes nothing but nodes of
    render scopes: every element of the store keeps its class, its
    attributes and its subscriber lists, and no element is added to the
    store or removed from it. *)
Theorem notification_preserves_structure depth this attr oldValue newValue source w r c :
  heap w !! r = Some c →
  let w' := final (attributeChangedCallback depth this attr oldValue newValue source w) in
  length (heap w') = length (heap w) ∧
  ∃ c', heap w' !! r = Some c' ∧
        class c' = class c ∧ attributes c' = attributes c ∧
        subscribers c' = subscribers c.
Proof.
  intros Hc w'.
  pose proof (attributeChangedCallback_step depth this attr oldValue newValue source w)
    as Hstep.
  split; [eapply world_step_length; eauto|].
  destruct (world_step_lookup _ _ _ _ _ _ Hstep Hc) as (c' & Hc' & Hcl & Hat & Hsu & _).
  exists c'. repeat split; done.
Qed.

Lemma notification_preserves_structure_witness :
  let w' := final (attributeChangedCallback 2 0 "data-spam" JUndefined (JStr "1") None page) in
  length (heap w') = length (heap page) ∧
  ∃ c', heap w' !! 1 = Some c' ∧
        class c' = class (instance None) ∧ attributes c' = attributes (instance None) ∧
        subscribers c' = subscribers (instance None).
Proof.
  apply (notification_preserves_structure 2 0 "data-spam" JUndefined (JStr "1") None page 1
           (instance None)).
  reflexivity.
Defined.

(** X5.  After a notification with a changed value, a further notification
    of the element for the same attribute and the same new value, with any
    old value and however either ends, leaves the render scope of the
    element as the first one left it: the duplicate call that the
    constructor's FIXME speaks of is harmless. *)
Theorem repeated_notification_same_scope depth depth' this attr oldValue oldValue' newValue
    source source' w c :
  newValue ≠ oldValue → heap w !! this = Some c →
  let w1 := final (attributeChangedCallback (S depth) this attr oldValue newValue source w) in
  let w2 := final (attributeChangedCallback depth' this attr oldValue' newValue source' w1) in
  ∃ c1 c2, heap w1 !! this = Some c1 ∧ heap w2 !! this = Some c2 ∧
           shadowRoot c2 = shadowRoot c1.
Proof.
  intros Hne Hc w1 w2.
  destruct (attributeChangedCallback_scope_any depth this attr oldValue newValue source w c
              Hne Hc) as (c1 & Hc1 & _ & _ & _ & Hnodes).
  pose proof (attributeChangedCallback_step depth' this attr oldValue' newValue source' w1)
    as Hstep.
  destruct (world_step_lookup _ _ _ _ _ _ Hstep Hc1) as (c2 & Hc2 & _ & _ & _ & Hno).
  exists c1, c2. repeat split; try done.
  rewrite Hnodes in Hno |- *. now apply Forall2_node_step_synced.
Qed.

Lemma repeated_notification_same_scope_witness :
  let w1 := final (attributeChangedCallback 2 0 "data-spam" JNull (JStr "1") None page) in
  let w2 := final (attributeChangedCallback 2 0 "data-spam" JUndefined (JStr "1") None w1) in
  ∃ c1 c2, heap w1 !! 0 = Some c1 ∧ heap w2 !! 0 = Some c2 ∧
           shadowRoot c2 = shadowRoot c1.
Proof.
  apply (repeated_notification_same_scope 1 2 0 "data-spam" JNull JUndefined (JStr "1")
           None None page (instance (Some [1; 2; 3]))).
  - discriminate.
  - reflexivity.
Defined.

(** X6.  On an element that has a registry, a notification with a changed
    value for an attribute name that every object inherits and that has no
    list of its own updates the bound nodes and then raises [TypeError]:
    line 74 finds the inherited property, which has no [forEach]. *)
Theorem inherited_name_notification_raises depth this attr oldValue newValue source w c
    registry :
  newValue ≠ oldValue → heap w !! this = Some c →
  subscribers c = Some registry → registry !! attr = None →
  attr ∈ Object_prototype →
  attributeChangedCallback (S depth) this attr oldValue newValue source w =
  Throw TypeError (after_update this c attr newValue w).
Proof.
  intros Hne Hc Hsub Hnone Hattr.
  rewrite (attributeChangedCallback_changed _ _ _ _ _ _ _ c)
    by (try done; now apply inherited_plain).
  unfold notify_subscribers, get. rewrite Hsub, Hnone.
  now rewrite bool_decide_true.
Qed.

Lemma inherited_name_notification_raises_witness :
  attributeChangedCallback 1 0 "constructor" JNull (JStr "1") None page =
  Throw TypeError (after_update 0 (instance (Some [1; 2; 3])) "constructor" (JStr "1") page).
Proof.
  apply (inherited_name_notification_raises 0 0 "constructor" JNull (JStr "1") None page
           (instance (Some [1; 2; 3])) {["data-spam" := [1; 2; 3]]}).
  - discriminate.
  - reflexivity.
  - reflexivity.
  - vm_compute. reflexivity.
  - apply (bool_decide_unpack _). vm_compute. exact I.
Defined.

(** ** The change listener, for every bound name *)





(** X8.  The two directions of the binding agree on names: when the
    listener's pattern matches the name of a node and captures a word, the
    attribute that [dataset] writes for that word is [data-word], and the
    selector that a notification for that attribute builds is read without
    an exception and selects the node. *)
Theorem binding_names_round_trip s word (nodes : list Node) i target :
  regex_match s = Some word →
  nodes !! i = Some target → name target = Some s →
  dataset_attribute word = inr ("data-" +:+ word) ∧
  ∃ targets, querySelectorAll (selector_text ("data-" +:+ word)) nodes = inr targets ∧
             i ∈ targets.
Proof.
  intros Hm Hi Hname. unfold regex_match in Hm.
  destruct (strip_prefix "bind-data-" s) as [group|] eqn:Hs; [|discriminate].
  destruct (all_lower group) eqn:Hl; [|discriminate]. injection Hm as ->.
  apply strip_prefix_Some in Hs. apply all_lower_lowercase in Hl. split.
  - now apply dataset_attribute_lowercase.
  - eexists. split.
    + rewrite querySelectorAll_selected, (selected_names_plain _ (lowercase_plain word Hl)).
      reflexivity.
    + apply matching_elem. exists target. split; [done|].
      apply selects_single. now rewrite Hname, Hs.
Qed.

Lemma binding_names_round_trip_witness :
  dataset_attribute "spam" = inr ("data-" +:+ "spam") ∧
  ∃ targets, querySelectorAll (selector_text ("data-" +:+ "spam")) [heading; input; paragraph]
             = inr targets ∧
             1 ∈ targets.
Proof.
  apply (binding_names_round_trip "bind-data-spam" "spam" [heading; input; paragraph] 1 input).
  - vm_compute. reflexivity.
  - reflexivity.
  - reflexivity.
Defined.

(** ** Construction and the rest of the store *)

Lemma alone_in_lookup this C store0 w :
  this < length store0 → alone_in this C store0 w →
  ∃ c, heap w !! this = Some c ∧ class c = C ∧ subscribers c = None.
Proof.
  intros Hlt (c & Hcl & Hsu & Hheap). exists c. rewrite Hheap.
  split; [now apply list_lookup_insert_eq | done].
Qed.

Lemma alone_in_update this C store0 w w' c' :
  alone_in this C store0 w →
  class c' = C → subscribers c' = None →
  heap w' = <[this := c']> (heap w) →
  alone_in this C store0 w'.
Proof.
  intros (c & _ & _ & Hheap) Hcl Hsu Hheap'. exists c'.
  repeat split; try done. rewrite Hheap', Hheap. apply list_insert_insert_eq.
Qed.

Lemma notification_alone depth this attr oldValue newValue source C store0 w :
  this < length store0 → alone_in this C store0 w →
  alone_in this C store0
    (final (attributeChangedCallback depth this attr oldValue newValue source w)).
Proof.
  intros Hlt Hw. destruct depth as [|depth]; [exact Hw|].
  destruct (decide (newValue = oldValue)) as [Heq | Hne].
  { now rewrite same_value_returns. }
  destruct (alone_in_lookup _ _ _ _ Hlt Hw) as (c & Hc & Hcl & Hsu).
  destruct (selected_names attr) as [e | names] eqn:Hsel.
  { now rewrite (attributeChangedCallback_failed _ _ _ _ _ _ _ c e). }
  rewrite (attributeChangedCallback_selected _ _ _ _ _ _ _ c names) by done.
  unfold notify_subscribers. rewrite Hsu. simpl.
  eapply (alone_in_update _ _ _ w); [exact Hw | | | reflexivity]; simpl; done.
Qed.

Lemma dataset_set_alone depth this key v C store0 w :
  this < length store0 → alone_in this C store0 w →
  alone_in this C store0 (final (dataset_set depth this key v w)).
Proof.
  intros Hlt Hw.
  destruct (alone_in_lookup _ _ _ _ Hlt Hw) as (c & Hc & Hcl & Hsu).
  unfold dataset_set. rewrite Hc.
  destruct (dataset_attribute key) as [e | attr]; [exact Hw|].
  unfold bind, store. simpl. unfold attribute_changed. simpl.
  assert (Hthis : this < length (heap w)) by (eapply lookup_lt_Some; eauto).
  rewrite list_lookup_insert_eq by done. simpl.
  set (c1 := with_attributes c (<[attr := to_string v]> (attributes c))).
  assert (Hstored : ∀ l, alone_in this C store0
            {| heap := <[this := c1]> (heap w); delivers := delivers w; log := l |}).
  { intros l. eapply (alone_in_update _ _ _ w); [exact Hw | | | reflexivity]; done. }
  destruct (delivers w && bool_decide (attr ∈ observedAttributes (class c))); simpl.
  - unfold bind, emit. simpl. apply notification_alone; [done | apply Hstored].
  - apply Hstored.
Qed.

Lemma initialise_alone depth this entry C store0 w :
  this < length store0 → alone_in this C store0 w →
  alone_in this C store0 (final (initialise depth this entry w)).
Proof.
  intros Hlt Hw. destruct entry as [key v]. unfold initialise, bind.
  pose proof (dataset_set_alone depth this key (JStr v) C store0 w Hlt Hw) as Hset.
  destruct (dataset_set depth this key (JStr v) w) as [[] w1 | e w1]; simpl in *; [|done].
  unfold emit. apply notification_alone; [done|].
  destruct Hset as (c & Hcl & Hsu & Hheap). exists c. done.
Qed.

(** X9.  Construction never touches the elements that exist: for a class
    with a template and any configuration, however the constructor ends,
    the store afterwards is the old store followed by one element of that
    class, without subscribers; for a class without template the
    constructor raises [TypeError] and the world stays as it was. *)
Theorem constructor_frame depth C config w :
  (template C = None → constructor depth C config w = Throw TypeError w) ∧
  (∀ content, template C = Some content →
     ∃ c', class c' = C ∧ subscribers c' = None ∧
           heap (final (constructor depth C config w)) = heap w ++ [c']).
Proof.
  unfold constructor. split; [now intros -> | intros content ->].
  set (c := {| class := C; attributes := ∅; shadowRoot := content; subscribers := None |}).
  set (w0 := {| heap := heap w ++ [c]; delivers := delivers w; log := log w |}).
  assert (Hlt : length (heap w) < length (heap w ++ [c]))
    by (rewrite length_app; simpl; lia).
  assert (Hw0 : alone_in (length (heap w)) C (heap w ++ [c]) w0).
  { exists c. repeat split. simpl. symmetry. apply list_insert_id.
    now apply list_lookup_middle. }
  pose proof (forEach_final
    (fun wa wb => alone_in (length (heap w)) C (heap w ++ [c]) wa →
                  alone_in (length (heap w)) C (heap w ++ [c]) wb)
    config (initialise depth (length (heap w)))
    (fun _ H => H) (fun _ _ _ H1 H2 H => H2 (H1 H))
    (fun entry wa => initialise_alone depth _ entry _ _ wa Hlt) w0 Hw0)
    as (c' & Hcl & Hsu & Hheap).
  exists c'. repeat split; try done.
  unfold bind, ret.
  destruct (forEach config (initialise depth (length (heap w))) w0) as [[] w' | e w'];
    simpl in *; rewrite Hheap;
    rewrite insert_app_r_alt by lia; now rewrite Nat.sub_diag.
Qed.

Lemma constructor_frame_witness :
  ∃ c', class c' = MyComponent ∧ subscribers c' = None ∧
        heap (final (constructor 2 MyComponent [("spam", "1"); ("high-score", "7")] page))
        = heap page ++ [c'].
Proof.
  apply (proj2 (constructor_frame 2 MyComponent [("spam", "1"); ("high-score", "7")] page)
           [heading; input; paragraph]).
  reflexivity.
Defined.

(** X10.  For a class with a template and keys of lowercase letters, the
    constructed element (attributes, render scope, no subscribers) is the
    same on a host that delivers attribute changes and on one that does
    not, whatever else the store holds and however deep the stack is. *)
Theorem construction_independent_of_host depth1 depth2 C content config w1 w2 :
  template C = Some content →
  Forall (fun entry => lowercase entry.1) config →
  ∃ c' w1' w2',
    constructor (S depth1) C config w1 = Ok (length (heap w1)) w1' ∧
    constructor (S depth2) C config w2 = Ok (length (heap w2)) w2' ∧
    heap w1' !! length (heap w1) = Some c' ∧
    heap w2' !! length (heap w2) = Some c'.
Proof.
  intros Htemplate Hkeys. unfold constructor. rewrite Htemplate.
  set (c := {| class := C; attributes := ∅; shadowRoot := content; subscribers := None |}).
  destruct (initialise_loop depth1 (length (heap w1)) config
              {| heap := heap w1 ++ [c]; delivers := delivers w1; log := log w1 |} c
              (list_lookup_middle _ _ _ _ eq_refl) eq_refl Hkeys)
    as (w1' & Hrun1 & Hc1 & _).
  destruct (initialise_loop depth2 (length (heap w2)) config
              {| heap := heap w2 ++ [c]; delivers := delivers w2; log := log w2 |} c
              (list_lookup_middle _ _ _ _ eq_refl) eq_refl Hkeys)
    as (w2' & Hrun2 & Hc2 & _).
  exists (foldl seed c config), w1', w2'. unfold bind, ret. rewrite Hrun1, Hrun2. done.
Qed.

Lemma construction_independent_of_host_witness :
  ∃ c' w1' w2',
    constructor 1 MyComponent [("spam", "1"); ("eggs", "2")] (blank false)
      = Ok (length (heap (blank false))) w1' ∧
    constructor 3 MyComponent [("spam", "1"); ("eggs", "2")] page
      = Ok (length (heap page)) w2' ∧
    heap w1' !! length (heap (blank false)) = Some c' ∧
    heap w2' !! length (heap page) = Some c'.
Proof.
  apply (construction_independent_of_host 0 2 MyComponent [heading; input; paragraph]
           [("spam", "1"); ("eggs", "2")] (blank false) page).
  - reflexivity.
  - repeat constructor; apply (bool_decide_unpack _); vm_compute; exact I.
Defined.

(** ** Registration, one call and many *)

Lemma observeAttribute_appends_witness :
  ∃ w' c',
    observeAttribute 0 "data-spam" 2 page = Ok 0 w' ∧
    heap w' !! 0 = Some c' ∧
    registered c' "data-spam" =
      Some (subscribers_of (instance (Some [1; 2; 3])) "data-spam" ++ [2]).
Proof.
  apply (observeAttribute_appends 0 "data-spam" 2 page (instance (Some [1; 2; 3]))).
  - reflexivity.
  - apply (bool_decide_unpack _). vm_compute. exact I.
Defined.

(** The world after a registration that succeeds. *)
Lemma observeAttribute_effect this attributeName subscriber w c :
  heap w !! this = Some c → attributeName ∉ Object_prototype →
  observeAttribute this attributeName subscriber w =
  Ok this
    {| heap := <[this := with_subscribers c
                   (<[attributeName := subscribers_of c attributeName ++ [subscriber]]>
                      (default ∅ (subscribers c)))]> (heap w);
       delivers := delivers w; log := log w |}.
Proof.
  intros Hc Hname. unfold observeAttribute. rewrite Hc.
  unfold bind, store at 1. cbv beta iota. rewrite get_own by done.
  rewrite registered_default. unfold subscribers_of.
  destruct (registered c attributeName) as [subs|]; simpl;
    now rewrite list_insert_insert_eq.
Qed.

(** X12.  Registration raises exactly when the attribute name is one that
    every object inherits and has no list yet; in every other case it
    returns. *)
Theorem observeAttribute_returns_iff this attributeName subscriber w c :
  heap w !! this = Some c →
  returns (observeAttribute this attributeName subscriber w) ↔
  ¬ (attributeName ∈ Object_prototype ∧ registered c attributeName = None).
Proof.
  intros Hc. unfold observeAttribute. rewrite Hc.
  unfold bind, store at 1. cbv beta iota. unfold get. rewrite registered_default.
  destruct (registered c attributeName) as [subs|]; simpl.
  - split; [intros _ [_ H]; discriminate | done].
  - case_bool_decide as Hin; simpl; split; try done.
    + intros H. apply H. done.
    + intros _ [H _]. done.
Qed.

Lemma observeAttribute_returns_iff_witness :
  returns (observeAttribute 0 "toString" 1 page) ↔
  ¬ ("toString" ∈ Object_prototype ∧
     registered (instance (Some [1; 2; 3])) "toString" = None).
Proof.
  apply (observeAttribute_returns_iff 0 "toString" 1 page (instance (Some [1; 2; 3]))).
  reflexivity.
Defined.

(** X13.  A chain of registrations for one attribute name that no object
    inherits returns the element and leaves its list for that name as the
    old list followed by the new subscribers in the order of the calls;
    render scope, attributes and class of the element stay. *)
Theorem observe_all_appends this attr subs w c :
  heap w !! this = Some c → attr ∉ Object_prototype →
  ∃ w' c',
    observe_all this attr subs w = Ok this w' ∧
    heap w' !! this = Some c' ∧
    subscribers_of c' attr = subscribers_of c attr ++ subs ∧
    shadowRoot c' = shadowRoot c ∧ attributes c' = attributes c ∧ class c' = class c.
Proof.
  intros Hc Hattr. revert w c Hc.
  induction subs as [|s subs IH]; intros w c Hc.
  - exists w, c. rewrite app_nil_r. done.
  - cbn [observe_all]. unfold bind.
    rewrite (observeAttribute_effect this attr s w c Hc Hattr).
    set (c1 := with_subscribers c
                 (<[attr := subscribers_of c attr ++ [s]]> (default ∅ (subscribers c)))).
    destruct (IH {| heap := <[this := c1]> (heap w); delivers := delivers w; log := log w |} c1)
      as (w' & c' & Hrun & Hc' & Hsubs & Hno & Hat & Hcl).
    { simpl. apply list_lookup_insert_eq. eapply lookup_lt_Some; eauto. }
    exists w', c'. repeat split; try done.
    rewrite Hsubs. unfold c1, subscribers_of at 1.
    rewrite registered_with_subscribers, lookup_insert_eq. simpl.
    now rewrite <- (assoc_L (++)).
Qed.

Lemma observe_all_appends_witness :
  ∃ w' c',
    observe_all 1 "data-spam" [2; 3; 2] page = Ok 1 w' ∧
    heap w' !! 1 = Some c' ∧
    subscribers_of c' "data-spam" = subscribers_of (instance None) "data-spam" ++ [2; 3; 2] ∧
    shadowRoot c' = shadowRoot (instance None) ∧
    attributes c' = attributes (instance None) ∧ class c' = class (instance None).
Proof.
  apply (observe_all_appends 1 "data-spam" [2; 3; 2] page (instance None)).
  - reflexivity.
  - apply (bool_decide_unpack _). vm_compute. exact I.
Defined.
